(** * The action file of a Sky table, and its MessagePack string reader

    A shallow embedding of [src/action_file.c] and [src/minipack.c].

    The C functions work on three pieces of mutable state: the
    [sky_action_file] structure they receive by pointer, the [FILE] they read,
    and the disk.  Three more pieces stand for the environment: a schedule
    that says which of the coming calls to the allocator and to the file
    system succeed, the number of bytes each coming failing [fwrite] gets out
    before it fails, and the content of memory the program has not written.
    A last one records that a buffer has been written past its end.  All
    seven are fields of [state]; a C function is a function
    [state -> result * state], written in a small state-and-error monad in
    which the [check] macro of [dbg.h] is the error.

    Left out: the release of memory ([free], [bdestroy], [sky_action_free])
    and the closing of files, which change none of the seven; and the reads
    of locals that the [error:] blocks make before those locals are set. *)

From Stdlib Require Import ZArith List Bool Lia String.
From stdpp Require Import base option list gmap strings.

Local Open Scope Z_scope.

(** ** Data *)

(** A [bstring] holds [slen] bytes; a null [bstring] is [None]. *)
Abbreviation bstring := (list Z).

(** A [FILE] open for reading: the bytes of the file and the position of the
    next byte to read. *)
Record stream := { data : list Z; pos : nat }.

(** Modelled from the spec: [table.h] is not among the sources.  The registry
    only ever reads the table's [path], which may be absent. *)
Record sky_table := { path : option string }.

(** The address of an action file, as kept in an action's back-reference. *)
Abbreviation ptr := N.

(** Modelled from the spec: [action.h] is not among the sources.  An action is
    [{ id: unsigned 64-bit integer, name: immutable byte string, registry:
    non-owning back-reference }]. *)
Record sky_action := {
  action_file : option ptr;
  id : Z;
  name : option bstring
}.

Definition with_id (x : Z) (a : sky_action) : sky_action :=
  {| action_file := action_file a; id := x; name := name a |}.

Definition with_name (x : option bstring) (a : sky_action) : sky_action :=
  {| action_file := action_file a; id := id a; name := x |}.

Definition with_action_file (x : option ptr) (a : sky_action) : sky_action :=
  {| action_file := x; id := id a; name := name a |}.

(** [struct sky_action_file].  [actions] is the array behind the pointer (a
    null pointer is the empty array); [action_count] is the separate [int64_t]
    field.  The C code reads [actions[i]] for [i < action_count] only, which is
    defined when [action_count] does not exceed the length of the array. *)
Record sky_action_file := {
  table : option sky_table;
  actions : list sky_action;
  action_count : Z
}.

(** [overrun] is set once a call has stored bytes past the end of a buffer.
    C gives the program no meaning from there on: the model carries on with
    the bytes that fit and keeps the flag, so that what it computes is the
    behaviour of the program only on the runs that leave the flag as it
    was. *)
Record state := {
  af : sky_action_file;           (* the structure [action_file] points to *)
  file : stream;                  (* the [FILE] being read *)
  fs : gmap string (list Z);      (* the disk: path to content *)
  schedule : list bool;           (* outcome of the coming fallible calls *)
  noise : nat -> Z;               (* bytes of memory never written *)
  torn : list nat;                (* bytes the coming failing writes get out *)
  overrun : bool                  (* a buffer has been written past its end *)
}.

Definition with_af (x : sky_action_file) (st : state) : state :=
  {| af := x; file := file st; fs := fs st;
     schedule := schedule st; noise := noise st;
     torn := torn st; overrun := overrun st |}.

Definition with_file (x : stream) (st : state) : state :=
  {| af := af st; file := x; fs := fs st;
     schedule := schedule st; noise := noise st;
     torn := torn st; overrun := overrun st |}.

Definition with_fs (x : gmap string (list Z)) (st : state) : state :=
  {| af := af st; file := file st; fs := x;
     schedule := schedule st; noise := noise st;
     torn := torn st; overrun := overrun st |}.

Definition with_schedule (x : list bool) (st : state) : state :=
  {| af := af st; file := file st; fs := fs st;
     schedule := x; noise := noise st;
     torn := torn st; overrun := overrun st |}.

Definition with_torn (x : list nat) (st : state) : state :=
  {| af := af st; file := file st; fs := fs st;
     schedule := schedule st; noise := noise st;
     torn := x; overrun := overrun st |}.

(** Records an overrun when [b] holds. *)
Definition mark_overrun (b : bool) (st : state) : state :=
  {| af := af st; file := file st; fs := fs st;
     schedule := schedule st; noise := noise st;
     torn := torn st; overrun := overrun st || b |}.

(** ** The monad *)

(** A computation returns [None] when a [check] has jumped to the function's
    [error:] label; the state it returns is the state at the jump. *)
Definition M (A : Type) : Type := state -> option A * state.

Definition ret {A} (a : A) : M A := fun st => (Some a, st).

Definition bind {A B} (m : M A) (k : A -> M B) : M B :=
  fun st =>
    match m st with
    | (Some a, st') => k a st'
    | (None, st') => (None, st')
    end.

Declare Scope sky_scope.
Delimit Scope sky_scope with sky.

Notation "x <- m ;; k" := (bind m (fun x => k))
  (at level 20, m at level 99, k at level 200, only parsing) : sky_scope.
Notation "' p <- m ;; k" := (bind m (fun p => k))
  (at level 20, p pattern, m at level 99, k at level 200, only parsing)
  : sky_scope.
Notation "m ;;; k" := (bind m (fun _ => k))
  (at level 100, k at level 200, only parsing, right associativity)
  : sky_scope.

Local Open Scope sky_scope.

Definition gets {A} (f : state -> A) : M A := fun st => (Some (f st), st).
Definition modify (f : state -> state) : M unit := fun st => (Some tt, f st).

(** Modelled from the spec: [dbg.h] is not among the sources.  [check(A, ...)]
    logs and jumps to [error:] unless [A] holds; [check_mem(p)] is
    [check(p, ...)] on a pointer. *)
Definition check (b : bool) : M unit :=
  fun st => (if b then Some tt else None, st).

Definition check_mem {A} (p : option A) : M A := fun st => (p, st).

Definition nonnull {A} (p : option A) : bool :=
  match p with Some _ => true | None => false end.

(** C integer conversions. *)
Definition uint32 (z : Z) : Z := z mod 2 ^ 32.
Definition uint64 (z : Z) : Z := z mod 2 ^ 64.
Definition int64 (z : Z) : Z :=
  if z mod 2 ^ 64 <? 2 ^ 63 then z mod 2 ^ 64 else z mod 2 ^ 64 - 2 ^ 64.

(** Calling a C function: it always returns, with a result code. *)
Definition call {A} (f : state -> A * state) : M A :=
  fun st => let (a, st') := f st in (Some a, st').

(** A C function body with its [error:] block. *)
Definition or_else {A} (body : M A) (on_error : state -> A * state)
  : state -> A * state :=
  fun st =>
    match body st with
    | (Some a, st') => (a, st')
    | (None, st') => on_error st'
    end.

(** ** The C library *)

(** The next fallible call succeeds unless the schedule says otherwise. *)
Definition next_call_ok : M bool :=
  fun st =>
    match schedule st with
    | [] => (Some true, st)
    | b :: rest => (Some b, with_schedule rest st)
    end.

(** [n] bytes of memory nobody has written. *)
Definition garbage (st : state) (n : Z) : list Z :=
  map (fun k => noise st k mod 256) (seq 0 (Z.to_nat n)).

Definition malloc (n : Z) : M (option (list Z)) :=
  ok <- next_call_ok ;;
  st <- gets (fun st => st) ;;
  ret (if ok then Some (garbage st n) else None).

(** [fseek(file, p, SEEK_SET)] *)
Definition fseek (p : nat) (st : state) : state :=
  with_file {| data := data (file st); pos := p |} st.

(** [fread(buf, size, nmemb, file)]: reads up to [size * nmemb] bytes, moves
    the position past every byte read, and returns the number of whole items
    together with the bytes. *)
Definition fread (size nmemb : Z) : M (Z * list Z) :=
  fun st =>
    let got := take (Z.to_nat (size * nmemb))
                    (drop (pos (file st)) (data (file st))) in
    (Some (Z.of_nat (length got) / size, got),
     with_file {| data := data (file st);
                  pos := (pos (file st) + length got)%nat |} st).

(** The bytes [more] go to the end of the file [out]. *)
Definition put (out : string) (more : list Z) (st : state) : state :=
  with_fs (<[out := default [] (fs st !! out) ++ more]> (fs st)) st.

(** The number of bytes a failing write of [n] bytes gets out before it
    fails: fewer than [n], and none unless [torn] says otherwise. *)
Definition next_torn (n : nat) : M nat :=
  fun st =>
    match torn st with
    | [] => (Some 0%nat, st)
    | k :: rest => (Some (Nat.min k (n - 1)), with_torn rest st)
    end.

(** A [FILE] open for writing is named by its path: every file the program
    opens is closed before the function returns, so what it writes is on the
    disk by then.  [fwrite(src, size, nmemb, out)] returns the number of whole
    items written: [nmemb] when the write goes through, and fewer when it
    fails, after some of the bytes, possibly a part of an item, have gone
    out. *)
Definition fwrite (out : string) (src : list Z) (size nmemb : Z) : M Z :=
  if size * nmemb =? 0 then ret 0
  else
    ok <- next_call_ok ;;
    if ok : bool then
      modify (put out (take (Z.to_nat (size * nmemb)) src)) ;;;
      ret nmemb
    else
      k <- next_torn (Z.to_nat (size * nmemb)) ;;
      modify (put out (take k src)) ;;;
      ret (Z.of_nat k / size).

(** [fopen(path, "r")]: null when the call fails or there is no such file. *)
Definition fopen_r (p : option string) : M (option unit) :=
  ok <- next_call_ok ;;
  content <- gets (fun st => p ≫= (fs st !!.)) ;;
  match content with
  | Some bytes =>
      if ok : bool then
        modify (with_file {| data := bytes; pos := 0 |}) ;;; ret (Some tt)
      else ret None
  | None => ret None
  end.

(** [fopen(path, "w")]: creates or truncates the file. *)
Definition fopen_w (p : option string) : M (option string) :=
  ok <- next_call_ok ;;
  match p with
  | Some p =>
      if ok : bool then
        modify (fun st => with_fs (<[p := []]> (fs st)) st) ;;; ret (Some p)
      else ret None
  | None => ret None
  end.

(** Modelled from the spec: [file.h] is not among the sources.
    [exists(path) -> bool], false for a null path. *)
Definition sky_file_exists (p : option string) : M bool :=
  gets (fun st =>
    match p with
    | Some p => bool_decide (is_Some (fs st !! p))
    | None => false
    end).

(** ** MessagePack primitives *)

(** Modelled from the spec: the [minipack_*] functions of [minipack.h] are not
    among the sources.  The spec gives a MessagePack-compatible framing: small
    integers, array lengths and string lengths take a single-byte tag; larger
    values take an extended tag followed by a big-endian field of explicit
    width.  A reader returns the value and the number of bytes consumed, and
    zero bytes consumed is its failure; the spec does not say where a failed
    read leaves the stream, and the model leaves it where the read stopped.
    A writer returns a result code and the number of bytes written, and zero
    bytes written is its failure; the spec does not say what a failed writer
    has put in the file, and the model has it put nothing. *)

Fixpoint be_bytes (n : nat) (v : Z) : list Z :=
  match n with
  | O => []
  | S n' => (v / 256 ^ Z.of_nat n') mod 256 :: be_bytes n' v
  end.

Definition be_value (bs : list Z) : Z :=
  fold_left (fun acc b => acc * 256 + b) bs 0.

(** The signed reading of a [bits]-wide field. *)
Definition signed (bits : Z) (v : Z) : Z :=
  if v <? 2 ^ (bits - 1) then v else v - 2 ^ bits.

(** The [n]-byte field after an extended tag; [sz] is 0 when it is cut. *)
Definition fread_field (n : Z) : M (Z * Z) :=
  '(items, bs) <- fread n 1 ;;
  ret (if items =? 1 then (be_value bs, n + 1) else (0, 0)).

Definition minipack_fread_array : M (Z * Z) :=
  '(_, tag) <- fread 1 1 ;;
  match tag with
  | [t] =>
      if (0x90 <=? t) && (t <=? 0x9f) then ret (Z.land t 0x0f, 1)
      else if t =? 0xdc then fread_field 2
      else if t =? 0xdd then fread_field 4
      else ret (0, 0)
  | _ => ret (0, 0)
  end.

Definition minipack_fread_raw : M (Z * Z) :=
  '(_, tag) <- fread 1 1 ;;
  match tag with
  | [t] =>
      if (0xa0 <=? t) && (t <=? 0xbf) then ret (Z.land t 0x1f, 1)
      else if t =? 0xda then fread_field 2
      else if t =? 0xdb then fread_field 4
      else ret (0, 0)
  | _ => ret (0, 0)
  end.

Definition fread_signed_field (n : Z) : M (Z * Z) :=
  '(v, sz) <- fread_field n ;;
  ret (if sz =? 0 then (0, 0) else (signed (8 * n) v, sz)).

Definition minipack_fread_int : M (Z * Z) :=
  '(_, tag) <- fread 1 1 ;;
  match tag with
  | [t] =>
      if t <=? 0x7f then ret (t, 1)
      else if 0xe0 <=? t then ret (t - 256, 1)
      else if t =? 0xd0 then fread_signed_field 1
      else if t =? 0xd1 then fread_signed_field 2
      else if t =? 0xd2 then fread_signed_field 4
      else if t =? 0xd3 then fread_signed_field 8
      else ret (0, 0)
  | _ => ret (0, 0)
  end.

Definition pack_array (count : Z) : list Z :=
  if count <=? 15 then [Z.lor 0x90 count]
  else if count <=? 0xffff then 0xdc :: be_bytes 2 count
  else 0xdd :: be_bytes 4 count.

Definition pack_raw (len : Z) : list Z :=
  if len <=? 31 then [Z.lor 0xa0 len]
  else if len <=? 0xffff then 0xda :: be_bytes 2 len
  else 0xdb :: be_bytes 4 len.

Definition pack_int (v : Z) : list Z :=
  if (0 <=? v) && (v <=? 127) then [v]
  else if (-32 <=? v) && (v <=? -1) then [v + 256]
  else if (-2 ^ 7 <=? v) && (v <? 2 ^ 7) then 0xd0 :: be_bytes 1 (v mod 2 ^ 8)
  else if (-2 ^ 15 <=? v) && (v <? 2 ^ 15) then
    0xd1 :: be_bytes 2 (v mod 2 ^ 16)
  else if (-2 ^ 31 <=? v) && (v <? 2 ^ 31) then
    0xd2 :: be_bytes 4 (v mod 2 ^ 32)
  else 0xd3 :: be_bytes 8 (v mod 2 ^ 64).

(** The writers: the element goes out whole and [sz] is its length, or the
    call fails with [sz] zero. *)
Definition fwrite_elem (out : string) (bytes : list Z) : M (Z * Z) :=
  ok <- next_call_ok ;;
  if ok : bool then
    modify (put out bytes) ;;; ret (0, Z.of_nat (length bytes))
  else ret (-1, 0).

(** [count] and [len] are [uint32_t] parameters, [value] is [int64_t]. *)
Definition minipack_fwrite_array (out : string) (count : Z) : M (Z * Z) :=
  fwrite_elem out (pack_array count).

Definition minipack_fwrite_raw (out : string) (len : Z) : M (Z * Z) :=
  fwrite_elem out (pack_raw len).

Definition minipack_fwrite_int (out : string) (value : Z) : M (Z * Z) :=
  fwrite_elem out (pack_int value).

(** ** minipack.c *)

(** The size of a [char] pointer on the LP64 targets the program is built
    for; both string functions pass it to the C library as the item size. *)
Definition sizeof_char_ptr : Z := 8.

(** [blk2bstr(blk, len)] of bstrlib: a new [bstring] with the first [len]
    bytes of the block, or null when the allocation fails. *)
Definition blk2bstr (blk : list Z) (len : Z) : M (option bstring) :=
  ok <- next_call_ok ;;
  ret (if ok : bool then Some (take (Z.to_nat len) blk) else None).

(** [blength(b)] of bstrlib: 0 for a null string. *)
Definition blength (b : option bstring) : Z :=
  match b with
  | Some s => Z.of_nat (length s)
  | None => 0
  end.

(** The body of [sky_minipack_fread_bstring] between the checkpoint and the
    [error:] label.  The buffer has [len + 1] bytes, or none when [len + 1]
    wraps to 0, and [fread] is asked for [len] items of [sizeof_char_ptr]
    bytes: a terminator stored outside the buffer and what [fread] delivers
    beyond it are recorded as overruns. *)
Definition fread_bstring_body : M bstring :=
  (* Read string length. *)
  '(len, sz) <- minipack_fread_raw ;;
  check (negb (sz =? 0)) ;;;
  (* Initialize buffer. *)
  buffer <- malloc ((len + 1) mod 2 ^ 32) ;;
  buffer <- check_mem buffer ;;
  modify (mark_overrun (length buffer <=? Z.to_nat len)%nat) ;;;
  let buffer := <[Z.to_nat len := 0]> buffer in
  (* Read into buffer. *)
  '(sz, got) <- fread sizeof_char_ptr len ;;
  modify (mark_overrun (length buffer <? length got)%nat) ;;;
  let buffer := take (length buffer) (got ++ drop (length got) buffer) in
  check (negb (sz =? len)) ;;;
  (* Create bstring from buffer and return. *)
  str <- blk2bstr buffer len ;;
  check_mem str.

Definition sky_minipack_fread_bstring : state -> (Z * option bstring) * state :=
  fun st =>
    (* Checkpoint stream: long pos = ftell(file). *)
    let p := pos (file st) in
    or_else (str <- fread_bstring_body ;; ret (0, Some str))
            (fun st' => ((-1, None), fseek p st'))
            st.

(** The memory at [bdata(str)]: the bytes of the string, the terminating
    zero bstrlib keeps after them, and whatever follows in memory. *)
Definition bdata (str : bstring) (st : state) (n : Z) : list Z :=
  take (Z.to_nat n) (str ++ 0 :: garbage st n).

Definition fwrite_bstring_body (out : string) (str : option bstring) : M unit :=
  (* Write header. *)
  '(rc, _) <- minipack_fwrite_raw out (blength str) ;;
  check (rc =? 0) ;;;
  (* Write raw bytes. *)
  match str with
  | Some s =>
      st <- gets (fun st => st) ;;
      sz <- fwrite out (bdata s st (sizeof_char_ptr * blength str))
                   sizeof_char_ptr (blength str) ;;
      check (sz =? blength str)
  | None => ret tt
  end.

Definition sky_minipack_fwrite_bstring (out : string) (str : option bstring)
  : state -> Z * state :=
  or_else (fwrite_bstring_body out str ;;; ret 0) (fun st' => (-1, st')).

(** ** action_file.c *)

(** Modelled from the spec: [action.c] is not among the sources.  A new
    action is detached, [id == 0] and no registry; null when out of memory. *)
Definition sky_action_create : M (option sky_action) :=
  ok <- next_call_ok ;;
  ret (if ok : bool
       then Some {| action_file := None; id := 0; name := None |}
       else None).

(** [biseq] of bstrlib: 1 for equal strings, 0 for different ones, -1 when
    one of them is null. *)
Definition biseq (a b : option bstring) : Z :=
  match a, b with
  | Some x, Some y => if bool_decide (x = y) then 1 else 0
  | _, _ => -1
  end.

(** The registry [sky_action_file_create] returns for a table, and the one
    [sky_action_file_unload] leaves: no actions, count 0. *)
Definition empty_action_file (t : option sky_table) : sky_action_file :=
  {| table := t; actions := []; action_count := 0 |}.

Definition sky_action_file_create (t : option sky_table)
  : M (option sky_action_file) :=
  fun st =>
    match (check (nonnull t) ;;;
           p <- malloc 24 ;;
           _ <- check_mem p ;;
           ret (empty_action_file t)) st with
    | (Some reg, st') => (Some (Some reg), st')
    | (None, st') => (Some None, st')
    end.

Definition sky_action_file_get_path (action_file : option ptr)
  : state -> (Z * option string) * state :=
  or_else
    (check (nonnull action_file) ;;;
     t <- gets (fun st => table (af st)) ;;
     t <- check_mem t ;;
     p <- check_mem (path t) ;;
     ret (0, Some (p ++ "/actions")%string))
    (fun st => ((-1, None), st)).

Definition sky_action_file_unload (action_file : option ptr)
  : state -> Z * state :=
  fun st =>
    match action_file with
    | Some _ => (0, with_af (empty_action_file (table (af st))) st)
    | None => (0, st)
    end.

(** The loop of [sky_action_file_load], [n] iterations to go; [acc] holds
    the slots filled so far. *)
Fixpoint load_actions (action_file : option ptr) (n : nat)
    (acc : list sky_action) : M (list sky_action) :=
  match n with
  | O => ret acc
  | S n' =>
      action <- sky_action_create ;;
      action <- check_mem action ;;
      (* Read action id. *)
      '(v, sz) <- minipack_fread_int ;;
      let action := with_id (uint64 v) action in
      check (negb (sz =? 0)) ;;;
      (* Read action name. *)
      '(rc, nm) <- call sky_minipack_fread_bstring ;;
      let action := with_name nm action in
      check (rc =? 0) ;;;
      (* Append to array. *)
      load_actions action_file n'
        (acc ++ [with_action_file action_file action])
  end.

(** The block of [sky_action_file_load] that runs when the file exists. *)
Definition load_file (action_file : option ptr) (p : option string)
  : M (list sky_action * Z) :=
  f <- fopen_r p ;;
  _ <- check_mem f ;;
  (* Read action count. *)
  '(count, sz) <- minipack_fread_array ;;
  check (negb (sz =? 0)) ;;;
  (* Allocate actions: [count] pointers. *)
  arr <- malloc (8 * count) ;;
  check (negb (0 <? count) || nonnull arr) ;;;
  (* Read actions. *)
  loaded <- load_actions action_file (Z.to_nat count) [] ;;
  ret (loaded, count).

(** [sky_action_file_load] once the registry is unloaded: nothing is stored
    on the registry before every read has succeeded. *)
Definition load_after_unload (action_file : option ptr) : M unit :=
  (* Retrieve path for action file. *)
  '(rc, p) <- call (sky_action_file_get_path action_file) ;;
  check (rc =? 0) ;;;
  (* Read in actions file if it exists. *)
  ex <- sky_file_exists p ;;
  '(loaded, count) <-
    (if ex : bool then load_file action_file p else ret ([], 0)) ;;
  (* Store action list on action file. *)
  modify (fun st =>
    with_af {| table := table (af st);
               actions := loaded; action_count := count |} st).

Definition load_body (action_file : option ptr) : M unit :=
  check (nonnull action_file) ;;;
  (* Unload any actions currently in memory. *)
  rc <- call (sky_action_file_unload action_file) ;;
  check (rc =? 0) ;;;
  load_after_unload action_file.

Definition sky_action_file_load (action_file : option ptr)
  : state -> Z * state :=
  or_else (load_body action_file ;;; ret 0) (fun st => (-1, st)).

(** The loop of [sky_action_file_save] over the stored actions. *)
Fixpoint save_actions (out : string) (l : list sky_action) : M unit :=
  match l with
  | [] => ret tt
  | action :: rest =>
      (* Write action id. *)
      '(_, sz) <- minipack_fwrite_int out (int64 (id action)) ;;
      check (negb (sz =? 0)) ;;;
      (* Write action name. *)
      rc <- call (sky_minipack_fwrite_bstring out (name action)) ;;
      check (rc =? 0) ;;;
      save_actions out rest
  end.

(** The block of [sky_action_file_save] that runs when the file exists. *)
Definition save_file (p : option string) : M unit :=
  f <- fopen_w p ;;
  out <- check_mem f ;;
  (* Write action count. *)
  count <- gets (fun st => action_count (af st)) ;;
  '(rc, _) <- minipack_fwrite_array out (uint32 count) ;;
  check (rc =? 0) ;;;
  (* Write actions. *)
  l <- gets (fun st => take (Z.to_nat count) (actions (af st))) ;;
  save_actions out l.

Definition save_body (action_file : option ptr) : M unit :=
  check (nonnull action_file) ;;;
  (* Retrieve path for action file. *)
  '(rc, p) <- call (sky_action_file_get_path action_file) ;;
  check (rc =? 0) ;;;
  (* Read in actions file if it exists. *)
  ex <- sky_file_exists p ;;
  if ex : bool then save_file p else ret tt.

Definition sky_action_file_save (action_file : option ptr)
  : state -> Z * state :=
  or_else (save_body action_file ;;; ret 0) (fun st => (-1, st)).

(** The loop of [sky_action_file_find_action_by_name]: the first stored
    action whose name [biseq] finds equal. *)
Fixpoint find_first (l : list sky_action) (nm : option bstring)
  : option sky_action :=
  match l with
  | [] => None
  | a :: rest => if biseq (name a) nm =? 1 then Some a else find_first rest nm
  end.

Definition sky_action_file_find_action_by_name (action_file : option ptr)
    (nm : option bstring) : state -> (Z * option sky_action) * state :=
  or_else
    (check (nonnull action_file) ;;;
     check (nonnull nm) ;;;
     l <- gets (fun st =>
            take (Z.to_nat (action_count (af st))) (actions (af st))) ;;
     ret (0, find_first l nm))
    (fun st => ((-1, None), st)).

(** [action->action_file != NULL] *)
Definition linked (a : sky_action) : bool := nonnull (action_file a).

(** The checks at the head of [sky_action_file_add_action], written as in
    the source: the last one passes when the lookup succeeds AND finds an
    action. *)
Definition add_action_checks (action_file : option ptr)
    (action : option sky_action) : M sky_action :=
  check (nonnull action_file) ;;;
  a <- check_mem action ;;
  check (id a =? 0) ;;;
  check (negb (linked a)) ;;;
  (* Make sure an action with that name doesn't already exist. *)
  '(rc, found) <-
    call (sky_action_file_find_action_by_name action_file (name a)) ;;
  check ((rc =? 0) && nonnull found) ;;;
  ret a.

(** The identifier the next action receives. *)
Definition next_id (reg : sky_action_file) : Z :=
  if action_count reg =? 0 then 1
  else
    uint64 (default 0 (id <$> actions reg !! Z.to_nat (action_count reg - 1))
            + 1).

(** [sky_action_file_add_action] returns its result code and the content of
    [*action] after the call.  Once the checks have passed the action is
    linked and numbered and the count incremented before [realloc] is asked
    for an array of [action_count] slots; when [realloc] fails the array
    pointer is null, and otherwise the slots below the last one are kept and
    the action is stored in the last one, [actions[action_count-1]]. *)
Definition sky_action_file_add_action (action_file : option ptr)
    (action : option sky_action) : state -> (Z * option sky_action) * state :=
  fun st =>
    match add_action_checks action_file action st with
    | (None, st') => ((-1, action), st')
    | (Some a, st') =>
        let reg := af st' in
        let a' := with_id (next_id reg) (with_action_file action_file a) in
        let count' := int64 (action_count reg + 1) in
        match next_call_ok st' with
        | (Some true, st'') =>
            ((0, Some a'),
             with_af {| table := table reg;
                        actions :=
                          take (Z.to_nat (count' - 1)) (actions reg) ++ [a'];
                        action_count := count' |} st'')
        | (_, st'') =>
            ((-1, Some a'),
             with_af {| table := table reg;
                        actions := []; action_count := count' |} st'')
        end
    end.

(** A caller that adds the actions of [l] one after the other and goes on
    as long as [sky_action_file_add_action] returns 0: the state after the
    last call, or [None] once a call has not returned 0. *)
Fixpoint add_each (action_file : option ptr) (l : list sky_action)
    (st : state) : option state :=
  match l with
  | [] => Some st
  | a :: rest =>
      let '((rc, _), st') :=
        sky_action_file_add_action action_file (Some a) st in
      if rc =? 0 then add_each action_file rest st' else None
  end.

(** ** Observations *)

(** A computation keeps an observation [f] of the state when no run of it,
    passing or failing, changes [f]. *)
Definition keeps {X A} (f : state -> X) (m : M A) : Prop :=
  forall st, f (snd (m st)) = f st.

(** The bytes of the stream being read. *)
Definition stream_data (st : state) : list Z := data (file st).

(** A computation keeps [f] on failure when the state in which it jumps to
    [error:] has the [f] it started with. *)
Definition keeps_on_failure {X A} (f : state -> X) (m : M A) : Prop :=
  forall st st', m st = (None, st') -> f st' = f st.

(** The bytes of the stream from its position on. *)
Definition remaining (st : state) : list Z :=
  drop (pos (file st)) (data (file st)).

(** [m], started with the bytes [R] left in the stream, returns [a] and
    leaves [R']. *)
Definition reads {A} (R : list Z) (m : M A) (a : A) (R' : list Z) : Prop :=
  forall st, remaining st = R ->
    exists st', m st = (Some a, st') /\ remaining st' = R'.

(** [m] jumps to [error:] whenever it is started with [R] left in the
    stream. *)
Definition dooms {A} (R : list Z) (m : M A) : Prop :=
  forall st, remaining st = R -> fst (m st) = None.

(** [m] only ever appends to the file [out]. *)
Definition appends {A} (out : string) (m : M A) : Prop :=
  forall st c, fs st !! out = Some c ->
    exists more, fs (snd (m st)) !! out = Some (c ++ more).

(** ** Bytes *)

(** The values a stream or a file can hold. *)
Definition is_byte (b : Z) : bool := (0 <=? b) && (b <? 256).

Definition all_bytes (l : list Z) : bool := forallb is_byte l.

(** [m] jumps to [error:] from every state that satisfies [P]. *)
Definition always_fails {A} (P : state -> Prop) (m : M A) : Prop :=
  forall st, P st -> fst (m st) = None.

(** [m] runs from every state that satisfies [P]; its result and the state
    it leaves satisfy [Q]. *)
Definition steps {A} (P : state -> Prop) (m : M A)
    (Q : A -> state -> Prop) : Prop :=
  forall st, P st -> exists a st', m st = (Some a, st') /\ Q a st'.

(** The stream has [R] left, every coming call to the system succeeds, and
    the registry is [reg]. *)
Definition calm (R : list Z) (reg : sky_action_file) (st : state) : Prop :=
  remaining st = R /\ schedule st = [] /\ af st = reg.

(** The content of the file at path [q], if there is one. *)
Definition file_at (q : string) (st : state) : option (list Z) := fs st !! q.

(** No run of [m] removes a file from the disk. *)
Definition never_removes {A} (m : M A) : Prop :=
  forall st q, is_Some (fs st !! q) -> is_Some (fs (snd (m st)) !! q).

(** ** Sample data, for the lemmas that run the code *)

Definition sample_table : sky_table := {| path := Some "/db/users"%string |}.

Definition stored (i : Z) (nm : bstring) : sky_action :=
  {| action_file := Some 1%N; id := i; name := Some nm |}.

Definition detached (nm : bstring) : sky_action :=
  {| action_file := None; id := 0; name := Some nm |}.

Definition registry_of (l : list sky_action) : sky_action_file :=
  {| table := Some sample_table; actions := l;
     action_count := Z.of_nat (length l) |}.

(** A state with registry [reg], disk [disk] and a stream over [bytes], in
    which every call to the system succeeds. *)
Definition sample_state (reg : sky_action_file) (disk : gmap string (list Z))
    (bytes : list Z) : state :=
  {| af := reg; file := {| data := bytes; pos := 0 |}; fs := disk;
     schedule := []; noise := fun _ => 0; torn := []; overrun := false |}.

(** * Properties *)

(** ** Reasoning about computations *)

Section Keeps.
Context {X : Type} (f : state -> X).

Lemma keeps_ret {A} (a : A) : keeps f (ret a).
Proof. now intros st. Qed.

Lemma keeps_bind {A B} (m : M A) (k : A -> M B) :
  keeps f m -> (forall a, keeps f (k a)) -> keeps f (bind m k).
Proof.
  intros Hm Hk st. unfold bind. specialize (Hm st).
  destruct (m st) as [[a|] st1]; simpl in *; [|exact Hm].
  now rewrite Hk.
Qed.

Lemma keeps_check b : keeps f (check b).
Proof. now intros st. Qed.

Lemma keeps_check_mem {A} (p : option A) : keeps f (check_mem p).
Proof. now intros st. Qed.

Lemma keeps_gets {A} (g : state -> A) : keeps f (gets g).
Proof. now intros st. Qed.

Lemma keeps_modify (g : state -> state) :
  (forall st, f (g st) = f st) -> keeps f (modify g).
Proof. intros H st. apply H. Qed.

Lemma keeps_call {A} (c : state -> A * state) :
  (forall st, f (snd (c st)) = f st) -> keeps f (call c).
Proof.
  intros H st. unfold call. specialize (H st). now destruct (c st).
Qed.

Lemma or_else_keeps {A} (body : M A) (h : state -> A * state) :
  keeps f body -> (forall st, f (snd (h st)) = f st) ->
  forall st, f (snd (or_else body h st)) = f st.
Proof.
  intros Hb Hh st. unfold or_else. specialize (Hb st).
  destruct (body st) as [[a|] st1]; simpl in *; [exact Hb|].
  now rewrite Hh.
Qed.
End Keeps.

Lemma keeps_run {X A} (f : state -> X) (m : M A) st r st' :
  keeps f m -> m st = (r, st') -> f st' = f st.
Proof. intros K E. specialize (K st). now rewrite E in K. Qed.

(** Splits a goal [keeps f m] along the structure of [m]. *)
Ltac keeps_step :=
  match goal with
  | |- keeps _ (bind _ _) => apply keeps_bind; [| intros ?]
  | |- keeps _ (ret _) => apply keeps_ret
  | |- keeps _ (check _) => apply keeps_check
  | |- keeps _ (check_mem _) => apply keeps_check_mem
  | |- keeps _ (gets _) => apply keeps_gets
  | |- keeps _ (modify _) => apply keeps_modify; intros ?; reflexivity
  | |- keeps _ (let '(_, _) := ?p in _) => destruct p
  | |- keeps _ (match ?x with _ => _ end) => destruct x
  | |- keeps _ (if ?b then _ else _) => destruct b
  | |- keeps _ _ => progress cbv zeta
  end.

Ltac keeps_auto := repeat keeps_step; auto.

Lemma next_call_ok_keeps_af : keeps af next_call_ok.
Proof. intros st. unfold next_call_ok. now destruct (schedule st). Qed.

Lemma next_call_ok_keeps_data : keeps stream_data next_call_ok.
Proof. intros st. unfold next_call_ok. now destruct (schedule st). Qed.

Lemma fread_keeps_af size nmemb : keeps af (fread size nmemb).
Proof. now intros st. Qed.

Lemma fread_keeps_data size nmemb : keeps stream_data (fread size nmemb).
Proof. now intros st. Qed.

#[local] Hint Resolve next_call_ok_keeps_af next_call_ok_keeps_data
  fread_keeps_af fread_keeps_data : core.

Lemma malloc_keeps_af n : keeps af (malloc n).
Proof. unfold malloc. keeps_auto. Qed.

Lemma malloc_keeps_data n : keeps stream_data (malloc n).
Proof. unfold malloc. keeps_auto. Qed.

Lemma fread_field_keeps_af n : keeps af (fread_field n).
Proof. unfold fread_field. keeps_auto. Qed.

Lemma fread_field_keeps_data n : keeps stream_data (fread_field n).
Proof. unfold fread_field. keeps_auto. Qed.

#[local] Hint Resolve malloc_keeps_af malloc_keeps_data
  fread_field_keeps_af fread_field_keeps_data : core.

Lemma minipack_fread_raw_keeps_af : keeps af minipack_fread_raw.
Proof. unfold minipack_fread_raw. keeps_auto. Qed.

Lemma minipack_fread_raw_keeps_data : keeps stream_data minipack_fread_raw.
Proof. unfold minipack_fread_raw. keeps_auto. Qed.

Lemma minipack_fread_array_keeps_af : keeps af minipack_fread_array.
Proof. unfold minipack_fread_array. keeps_auto. Qed.

Lemma minipack_fread_int_keeps_af : keeps af minipack_fread_int.
Proof.
  unfold minipack_fread_int, fread_signed_field. keeps_auto.
Qed.

#[local] Hint Resolve minipack_fread_raw_keeps_af
  minipack_fread_raw_keeps_data minipack_fread_array_keeps_af
  minipack_fread_int_keeps_af : core.

Lemma fread_bstring_body_keeps_af : keeps af fread_bstring_body.
Proof. unfold fread_bstring_body, blk2bstr. keeps_auto. Qed.

Lemma fread_bstring_body_keeps_data : keeps stream_data fread_bstring_body.
Proof. unfold fread_bstring_body, blk2bstr. keeps_auto. Qed.

Lemma sky_minipack_fread_bstring_keeps_af st :
  af (snd (sky_minipack_fread_bstring st)) = af st.
Proof.
  unfold sky_minipack_fread_bstring. apply or_else_keeps; [|reflexivity].
  keeps_auto. apply fread_bstring_body_keeps_af.
Qed.

Lemma bind_keeps_on_failure {X A B} (f : state -> X) (m : M A) (k : A -> M B) :
  keeps f m -> (forall a, keeps_on_failure f (k a)) ->
  keeps_on_failure f (bind m k).
Proof.
  intros Hm Hk st st' E. unfold bind in E. specialize (Hm st).
  destruct (m st) as [[a|] st1]; simpl in Hm.
  - rewrite <- Hm. now apply (Hk a).
  - now inversion E; subst.
Qed.

Lemma modify_never_fails {X} (f : state -> X) g : keeps_on_failure f (modify g).
Proof. intros st st' E. discriminate E. Qed.

(** *** What the functions leave alone *)

Lemma next_torn_keeps_af n : keeps af (next_torn n).
Proof. intros st. unfold next_torn. now destruct (torn st). Qed.

#[local] Hint Resolve next_torn_keeps_af : core.

Lemma fwrite_keeps_af out src size nmemb : keeps af (fwrite out src size nmemb).
Proof. unfold fwrite. keeps_auto. Qed.

#[local] Hint Resolve fwrite_keeps_af : core.

Lemma fwrite_elem_keeps_af out bytes : keeps af (fwrite_elem out bytes).
Proof. unfold fwrite_elem. keeps_auto. Qed.

#[local] Hint Resolve fwrite_elem_keeps_af : core.

Lemma sky_minipack_fwrite_bstring_keeps_af out str st :
  af (snd (sky_minipack_fwrite_bstring out str st)) = af st.
Proof.
  unfold sky_minipack_fwrite_bstring. apply or_else_keeps; [|reflexivity].
  unfold fwrite_bstring_body, minipack_fwrite_raw. keeps_auto.
Qed.

Lemma save_actions_keeps_af out l : keeps af (save_actions out l).
Proof.
  induction l as [|a l IH]; simpl; [apply keeps_ret|].
  unfold minipack_fwrite_int. keeps_auto.
  apply keeps_call, sky_minipack_fwrite_bstring_keeps_af.
Qed.

Lemma fopen_w_keeps_af p : keeps af (fopen_w p).
Proof. unfold fopen_w. keeps_auto. Qed.

Lemma fopen_r_keeps_af p : keeps af (fopen_r p).
Proof. unfold fopen_r. keeps_auto. Qed.

Lemma sky_action_file_get_path_keeps action_file st :
  snd (sky_action_file_get_path action_file st) = st.
Proof.
  unfold sky_action_file_get_path, or_else, bind, check, check_mem, gets, ret.
  destruct action_file; simpl; [|reflexivity].
  destruct (table (af st)) as [t|]; [|reflexivity].
  now destruct (path t).
Qed.

Lemma sky_action_file_get_path_keeps_af action_file :
  keeps af (call (sky_action_file_get_path action_file)).
Proof.
  apply keeps_call. intros st. now rewrite sky_action_file_get_path_keeps.
Qed.

#[local] Hint Resolve save_actions_keeps_af fopen_w_keeps_af fopen_r_keeps_af
  sky_action_file_get_path_keeps_af : core.

Lemma save_file_keeps_af p : keeps af (save_file p).
Proof. unfold save_file, minipack_fwrite_array. keeps_auto. Qed.

#[local] Hint Resolve save_file_keeps_af : core.

Lemma save_body_keeps_af action_file : keeps af (save_body action_file).
Proof. unfold save_body, sky_file_exists. keeps_auto. Qed.

Lemma load_actions_keeps_af action_file n acc :
  keeps af (load_actions action_file n acc).
Proof.
  revert acc. induction n as [|n IH]; intros acc; simpl; [apply keeps_ret|].
  unfold sky_action_create. keeps_auto.
  apply keeps_call, sky_minipack_fread_bstring_keeps_af.
Qed.

#[local] Hint Resolve load_actions_keeps_af : core.

Lemma load_file_keeps_af action_file p : keeps af (load_file action_file p).
Proof. unfold load_file. keeps_auto. Qed.

(** The path of a registry whose table has one. *)
Lemma sky_action_file_get_path_ok (p : ptr) st t dir :
  table (af st) = Some t -> path t = Some dir ->
  sky_action_file_get_path (Some p) st
  = ((0, Some (dir ++ "/actions")%string), st).
Proof.
  intros Ht Hd.
  unfold sky_action_file_get_path, or_else, bind, check, check_mem, gets, ret.
  simpl. now rewrite Ht, Hd.
Qed.

(** ** Saving *)

(** C10: [sky_action_file_save] leaves the registry as it found it, table
    reference, stored actions and [action_count], whether it returns success
    or failure, and also when it is given a null pointer. *)
Theorem save_leaves_registry_unchanged (action_file : option ptr) (st : state) :
  af (snd (sky_action_file_save action_file st)) = af st.
Proof.
  unfold sky_action_file_save. apply or_else_keeps; [|reflexivity].
  apply keeps_bind; [apply save_body_keeps_af | intros; apply keeps_ret].
Qed.

(** C6: when the registry has an owner with a path and there is no file at
    [<path>/actions], [sky_action_file_save] returns 0 and leaves the disk,
    and the rest of the state, untouched: the file is not created. *)
Theorem save_without_file_writes_nothing (p : ptr) (st : state)
    (t : sky_table) (dir : string) :
  table (af st) = Some t -> path t = Some dir ->
  fs st !! (dir ++ "/actions")%string = None ->
  sky_action_file_save (Some p) st = (0, st)
  /\ fs (snd (sky_action_file_save (Some p) st)) !! (dir ++ "/actions")%string
     = None.
Proof.
  intros Ht Hd Hno.
  assert (E : sky_action_file_save (Some p) st = (0, st)).
  { unfold sky_action_file_save, or_else, save_body, bind, check, call.
    simpl. rewrite (sky_action_file_get_path_ok p st t dir Ht Hd). simpl.
    unfold sky_file_exists, gets. rewrite Hno.
    rewrite bool_decide_eq_false_2; [reflexivity|]. now intros [x Hx]. }
  rewrite E. now split.
Qed.

(** ** Loading *)

(** C5: when the registry has an owner with a path and there is no file at
    [<path>/actions], [sky_action_file_load] returns 0 and the registry holds
    no action, with [action_count] 0. *)
Theorem load_without_file_is_empty (p : ptr) (st : state)
    (t : sky_table) (dir : string) :
  table (af st) = Some t -> path t = Some dir ->
  fs st !! (dir ++ "/actions")%string = None ->
  fst (sky_action_file_load (Some p) st) = 0
  /\ actions (af (snd (sky_action_file_load (Some p) st))) = []
  /\ action_count (af (snd (sky_action_file_load (Some p) st))) = 0.
Proof.
  intros Ht Hd Hno.
  set (st1 := with_af (empty_action_file (table (af st))) st).
  assert (E : sky_action_file_load (Some p) st = (0, st1)).
  { unfold sky_action_file_load, or_else, load_body, load_after_unload,
      bind, check, call.
    simpl. fold st1.
    rewrite (sky_action_file_get_path_ok p st1 t dir Ht Hd). simpl.
    unfold sky_file_exists, gets. simpl. rewrite Hno.
    rewrite bool_decide_eq_false_2; [reflexivity|]. now intros [x Hx]. }
  rewrite E. now repeat split.
Qed.

(** After the unload the registry is not touched before the last step,
    which cannot fail. *)
Lemma load_after_unload_keeps_on_failure action_file :
  keeps_on_failure af (load_after_unload action_file).
Proof.
  unfold load_after_unload.
  apply bind_keeps_on_failure; [auto|]. intros [rc p].
  apply bind_keeps_on_failure; [apply keeps_check|]. intros _.
  apply bind_keeps_on_failure; [apply keeps_gets|]. intros ex.
  apply bind_keeps_on_failure.
  - destruct ex; [apply load_file_keeps_af | apply keeps_ret].
  - intros [loaded count]. apply modify_never_fails.
Qed.

Lemma load_body_unloads (p : ptr) st :
  load_body (Some p) st
  = load_after_unload (Some p)
      (with_af (empty_action_file (table (af st))) st).
Proof. reflexivity. Qed.

(** C8: whenever [sky_action_file_load] returns failure for a registry, the
    registry holds no action and its [action_count] is 0. *)
Theorem load_failure_leaves_registry_empty (p : ptr) (st : state) :
  fst (sky_action_file_load (Some p) st) = -1 ->
  actions (af (snd (sky_action_file_load (Some p) st))) = []
  /\ action_count (af (snd (sky_action_file_load (Some p) st))) = 0.
Proof.
  unfold sky_action_file_load, or_else, bind.
  rewrite load_body_unloads.
  pose proof (load_after_unload_keeps_on_failure (Some p)
                (with_af (empty_action_file (table (af st))) st)) as Hrest.
  destruct (load_after_unload (Some p) _) as [[[]|] st2]; simpl.
  - discriminate.
  - intros _. now rewrite (Hrest st2 eq_refl).
Qed.

Lemma save_without_file_witness :
  table (af (sample_state (registry_of [stored 1 [97]]) ∅ []))
  = Some sample_table
  /\ path sample_table = Some "/db/users"%string
  /\ fs (sample_state (registry_of [stored 1 [97]]) ∅ [])
       !! "/db/users/actions"%string = None
  /\ sky_action_file_save (Some 1%N)
       (sample_state (registry_of [stored 1 [97]]) ∅ [])
     = (0, sample_state (registry_of [stored 1 [97]]) ∅ []).
Proof.
  split; [reflexivity|]. split; [reflexivity|]. split; [reflexivity|].
  apply (save_without_file_writes_nothing 1%N
           (sample_state (registry_of [stored 1 [97]]) ∅ [])
           sample_table "/db/users"%string); reflexivity.
Defined.

Lemma load_without_file_witness :
  table (af (sample_state (registry_of [stored 1 [97]]) ∅ []))
  = Some sample_table
  /\ path sample_table = Some "/db/users"%string
  /\ fs (sample_state (registry_of [stored 1 [97]]) ∅ [])
       !! "/db/users/actions"%string = None
  /\ action_count
       (af (snd (sky_action_file_load (Some 1%N)
                   (sample_state (registry_of [stored 1 [97]]) ∅ [])))) = 0.
Proof.
  split; [reflexivity|]. split; [reflexivity|]. split; [reflexivity|].
  apply (load_without_file_is_empty 1%N
           (sample_state (registry_of [stored 1 [97]]) ∅ [])
           sample_table "/db/users"%string); reflexivity.
Defined.

(** A file that announces one action and stops after its identifier: the
    load fails and the action held before is gone. *)
Lemma load_failure_witness :
  fst (sky_action_file_load (Some 1%N)
         (sample_state (registry_of [stored 1 [97]])
            {[ "/db/users/actions"%string := [0x91; 0x01] ]} [])) = -1
  /\ actions
       (af (snd (sky_action_file_load (Some 1%N)
                   (sample_state (registry_of [stored 1 [97]])
                      {[ "/db/users/actions"%string := [0x91; 0x01] ]} []))))
     = [].
Proof.
  split; [reflexivity|].
  apply (load_failure_leaves_registry_empty 1%N
           (sample_state (registry_of [stored 1 [97]])
              {[ "/db/users/actions"%string := [0x91; 0x01] ]} [])).
  reflexivity.
Defined.

(** A 16-bit raw header cut after one byte of its length field: the reader
    has consumed two bytes when it gives up, and the stream is back at 0. *)
(** ** Finding an action by name *)

(** C9, as the code has it: a null query name is rejected with -1 and a null
    result, for every registry pointer; a name of length zero is not an
    error, the lookup runs and returns 0 with the first stored action whose
    name is empty, or null when there is none. *)
Theorem find_action_by_name_rejects_null_name_only
    (action_file : option ptr) (p : ptr) (st : state) :
  sky_action_file_find_action_by_name action_file None st = ((-1, None), st)
  /\ sky_action_file_find_action_by_name (Some p) (Some []) st
     = ((0, find_first
              (take (Z.to_nat (action_count (af st))) (actions (af st)))
              (Some [])), st).
Proof.
  split; [|reflexivity].
  unfold sky_action_file_find_action_by_name, or_else, bind, check.
  now destruct action_file.
Qed.

(** C9 as stated fails: with an empty query name the function returns 0,
    here with the stored action whose name is empty. *)
Lemma find_action_by_name_empty_name_counterexample :
  fst (sky_action_file_find_action_by_name (Some 1%N) (Some [])
         (sample_state (registry_of [stored 1 [97]; stored 2 []]) ∅ []))
  = (0, Some (stored 2 []))
  /\ fst (fst (sky_action_file_find_action_by_name (Some 1%N) (Some [])
                 (sample_state (registry_of [stored 1 [97]; stored 2 []]) ∅ [])))
     <> -1.
Proof. split; [reflexivity | discriminate]. Qed.

(** ** Adding an action *)

(** On the empty registry every call of [sky_action_file_add_action]
    returns -1 and changes nothing, whatever the action: the lookup finds no
    action, and the check after it asks for one. *)
Lemma add_action_to_empty_registry_fails (action_file : option ptr)
    (action : option sky_action) (t : option sky_table) (st : state) :
  sky_action_file_add_action action_file action
    (with_af (empty_action_file t) st)
  = ((-1, action), with_af (empty_action_file t) st).
Proof.
  unfold sky_action_file_add_action, add_action_checks, bind, check,
    check_mem, call.
  destruct action_file as [p|]; simpl; [|reflexivity].
  destruct action as [a|]; simpl; [|reflexivity].
  destruct (id a =? 0); simpl; [|reflexivity].
  destruct (linked a); simpl; [reflexivity|].
  unfold sky_action_file_find_action_by_name, or_else, bind, check, gets.
  simpl. now destruct (name a).
Qed.

(** The registry [sky_action_file_create] hands out is the empty one. *)
Lemma sky_action_file_create_empty (t : option sky_table) (st st' : state)
    (reg : sky_action_file) :
  sky_action_file_create t st = (Some (Some reg), st') ->
  reg = empty_action_file t.
Proof.
  unfold sky_action_file_create, bind, check, check_mem, malloc, ret.
  destruct (nonnull t); [|discriminate]. unfold bind, next_call_ok, gets.
  destruct (schedule st) as [|[] rest]; simpl; intros E;
    now inversion E.
Qed.

(** Where an add does succeed the numbering is the intended one: on a
    registry holding identifiers 1 to N in order, N at least 1, the next
    identifier is N + 1. *)
Lemma next_id_continues (reg : sky_action_file) :
  action_count reg = Z.of_nat (length (actions reg)) ->
  0 < action_count reg < 2 ^ 64 - 1 ->
  id <$> actions reg = seqZ 1 (action_count reg) ->
  next_id reg = action_count reg + 1.
Proof.
  intros Hwf Hn Hids. unfold next_id.
  destruct (action_count reg =? 0) eqn:E; [apply Z.eqb_eq in E; lia|].
  rewrite <- list_lookup_fmap, Hids, lookup_seqZ_lt by lia. simpl.
  unfold uint64. rewrite Z.mod_small by lia. lia.
Qed.

Lemma find_first_finds (l : list sky_action) (nm : bstring) (other : sky_action) :
  other ∈ l -> name other = Some nm ->
  nonnull (find_first l (Some nm)) = true.
Proof.
  intros Hin Hname. induction l as [|a l IH]; [now apply elem_of_nil in Hin|].
  simpl. apply elem_of_cons in Hin as [->|Hin].
  - rewrite Hname. simpl. now rewrite bool_decide_eq_true_2.
  - destruct (biseq (name a) (Some nm) =? 1); [reflexivity | now apply IH].
Qed.

Lemma int64_small (z : Z) : 0 <= z < 2 ^ 63 -> int64 z = z.
Proof.
  intros H. unfold int64. rewrite Z.mod_small by lia.
  destruct (z <? 2 ^ 63) eqn:E; [reflexivity|].
  apply Z.ltb_ge in E. lia.
Qed.

(** With a stored action of the same name, the checks of
    [sky_action_file_add_action] all pass. *)
Lemma add_action_checks_pass_on_duplicate (p : ptr) (a other : sky_action)
    (nm : bstring) (st : state) :
  action_count (af st) = Z.of_nat (length (actions (af st))) ->
  id a = 0 -> action_file a = None -> name a = Some nm ->
  other ∈ actions (af st) -> name other = Some nm ->
  add_action_checks (Some p) (Some a) st = (Some a, st).
Proof.
  intros Hwf Hid Hfree Hname Hin Hother.
  unfold add_action_checks, bind, check, check_mem, call, linked. simpl.
  rewrite Hid, Hfree, Hname. simpl.
  unfold sky_action_file_find_action_by_name, or_else, bind, check, gets.
  simpl. rewrite Hwf, Nat2Z.id, firstn_all.
  now rewrite (find_first_finds _ nm other Hin Hother).
Qed.

(** C1, code defect: an action whose name is the name of a stored action is
    accepted.  For a registry whose count is the length of its array, a
    detached action with the name of the action stored in slot [i], and a
    [realloc] that succeeds, [sky_action_file_add_action] returns 0 and
    [action_count] has grown by one. *)
Theorem add_action_accepts_duplicate_name (p : ptr) (a other : sky_action)
    (nm : bstring) (i : nat) (st : state) :
  action_count (af st) = Z.of_nat (length (actions (af st))) ->
  action_count (af st) + 1 < 2 ^ 63 ->
  id a = 0 -> action_file a = None -> name a = Some nm ->
  actions (af st) !! i = Some other -> name other = Some nm ->
  hd true (schedule st) = true ->
  fst (fst (sky_action_file_add_action (Some p) (Some a) st)) = 0
  /\ action_count (af (snd (sky_action_file_add_action (Some p) (Some a) st)))
     = action_count (af st) + 1.
Proof.
  intros Hwf Hbound Hid Hfree Hname Hin Hother Hok.
  apply list_elem_of_lookup_2 in Hin.
  unfold sky_action_file_add_action.
  rewrite (add_action_checks_pass_on_duplicate p a other nm st) by assumption.
  assert (E : fst (next_call_ok st) = Some true).
  { unfold next_call_ok. destruct (schedule st) as [|b rest]; [reflexivity|].
    simpl in Hok. now subst b. }
  destruct (next_call_ok st) as [[[]|] st2]; simpl in E; try discriminate.
  simpl. split; [reflexivity|]. apply int64_small. lia.
Qed.

Lemma add_action_accepts_duplicate_name_witness :
  fst (fst (sky_action_file_add_action (Some 1%N) (Some (detached [97]))
              (sample_state (registry_of [stored 1 [97]]) ∅ []))) = 0
  /\ action_count
       (af (snd (sky_action_file_add_action (Some 1%N) (Some (detached [97]))
                   (sample_state (registry_of [stored 1 [97]]) ∅ []))))
     = action_count (registry_of [stored 1 [97]]) + 1.
Proof.
  apply (add_action_accepts_duplicate_name 1%N (detached [97]) (stored 1 [97])
           [97] 0%nat (sample_state (registry_of [stored 1 [97]]) ∅ []));
    reflexivity.
Defined.

(** The same call with the code run: the duplicate is stored with identifier
    2 next to the action of the same name. *)
Example add_action_duplicate_name_run :
  let st := sample_state (registry_of [stored 1 [97]]) ∅ [] in
  fst (sky_action_file_add_action (Some 1%N) (Some (detached [97])) st)
  = (0, Some (stored 2 [97]))
  /\ af (snd (sky_action_file_add_action (Some 1%N) (Some (detached [97])) st))
     = registry_of [stored 1 [97]; stored 2 [97]].
Proof. split; reflexivity. Qed.

(** And a name that is not stored is turned away. *)
Example add_action_fresh_name_run :
  let st := sample_state (registry_of [stored 1 [97]]) ∅ [] in
  sky_action_file_add_action (Some 1%N) (Some (detached [98])) st
  = ((-1, Some (detached [98])), st).
Proof. reflexivity. Qed.

(** ** Reading a string: when it succeeds *)

(** [fread] returns [len] whole items exactly when [sizeof_char_ptr * len]
    bytes were there to read. *)
Lemma fread_items_eq_iff (avail : nat) (len : Z) :
  0 <= len ->
  Z.of_nat (Nat.min (Z.to_nat (sizeof_char_ptr * len)) avail) / sizeof_char_ptr
  = len
  <-> sizeof_char_ptr * len <= Z.of_nat avail.
Proof.
  unfold sizeof_char_ptr. intros Hlen. split.
  - intros H.
    destruct (Nat.min_spec (Z.to_nat (8 * len)) avail) as [[Hlt E]|[Hle E]];
      rewrite E in H; [lia|].
    destruct (Z_lt_le_dec (Z.of_nat avail) (8 * len)) as [C|C]; [|exact C].
    assert (Z.of_nat avail / 8 < len) by (apply Z.div_lt_upper_bound; lia).
    lia.
  - intros H. rewrite Nat.min_l by lia. rewrite Z2Nat.id by lia.
    rewrite Z.mul_comm. apply Z.div_mul. lia.
Qed.

(** C3, code defect: after a well-formed header announcing [len] bytes, and
    with memory available, [sky_minipack_fread_bstring] returns 0 exactly when
    fewer than [sizeof_char_ptr * len] bytes are left in the stream.  So a
    payload cut short (fewer than [len] bytes) is accepted, a payload followed
    by enough further data is refused, and a string of length 0 is always
    refused. *)
Theorem fread_bstring_succeeds_iff_read_is_short (st st1 : state) (len sz : Z) :
  minipack_fread_raw st = (Some (len, sz), st1) -> sz <> 0 -> 0 <= len ->
  schedule st1 = [] ->
  fst (fst (sky_minipack_fread_bstring st)) = 0
  <-> Z.of_nat (length (remaining st1)) < sizeof_char_ptr * len.
Proof.
  intros Hhdr Hsz Hlen Hsched.
  unfold sky_minipack_fread_bstring, or_else, fread_bstring_body, bind.
  rewrite Hhdr.
  unfold check at 1.
  destruct (sz =? 0) eqn:E; [apply Z.eqb_eq in E; contradiction|].
  simpl negb. cbv iota.
  unfold malloc, bind, next_call_ok, gets, ret. rewrite Hsched.
  unfold check_mem at 1. unfold modify at 1.
  unfold fread. cbv zeta. cbv iota beta.
  cbn [file data pos mark_overrun].
  rewrite length_take. fold (remaining st1).
  unfold modify, check.
  destruct (Z.of_nat (Z.to_nat (sizeof_char_ptr * len)
                      `min` length (remaining st1))
            / sizeof_char_ptr =? len) eqn:E2; simpl negb; cbv iota.
  - apply Z.eqb_eq, fread_items_eq_iff in E2; [|exact Hlen].
    simpl. split; [discriminate | lia].
  - apply Z.eqb_neq in E2. rewrite fread_items_eq_iff in E2 by exact Hlen.
    unfold blk2bstr, bind, next_call_ok, ret, check_mem.
    cbn [schedule mark_overrun with_file]. rewrite Hsched.
    simpl. split; [lia | reflexivity].
Qed.

(** A header announcing two bytes, followed by one. *)
Lemma fread_bstring_succeeds_iff_read_is_short_witness :
  minipack_fread_raw (sample_state (registry_of []) ∅ [0xa2; 0x61])
  = (Some (2, 1),
     with_file {| data := [0xa2; 0x61]; pos := 1 |}
       (sample_state (registry_of []) ∅ [0xa2; 0x61]))
  /\ (fst (fst (sky_minipack_fread_bstring
                  (sample_state (registry_of []) ∅ [0xa2; 0x61]))) = 0
      <-> 1 < sizeof_char_ptr * 2).
Proof.
  split; [reflexivity|].
  apply (fread_bstring_succeeds_iff_read_is_short
           (sample_state (registry_of []) ∅ [0xa2; 0x61])
           (with_file {| data := [0xa2; 0x61]; pos := 1 |}
              (sample_state (registry_of []) ∅ [0xa2; 0x61]))
           2 1); [reflexivity | lia | lia | reflexivity].
Defined.

(** Short read: two bytes announced, one present.  The call returns 0 with a
    two-byte string whose second byte never came from the stream. *)
Example fread_bstring_short_read_run :
  fst (sky_minipack_fread_bstring
         (sample_state (registry_of []) ∅ [0xa2; 0x61]))
  = (0, Some [0x61; 0]).
Proof. reflexivity. Qed.

(** Full read: one byte announced, and eight more bytes in the stream.  The
    call returns -1 and the stream is back at 0; the eight bytes [fread]
    delivered have gone to a buffer of two. *)
Example fread_bstring_full_read_run :
  let st := sample_state (registry_of []) ∅
              [0xa1; 0x61; 0x02; 0xa1; 0x62; 0x03; 0xa1; 0x63; 0x04] in
  fst (sky_minipack_fread_bstring st) = (-1, None)
  /\ pos (file (snd (sky_minipack_fread_bstring st))) = 0%nat
  /\ overrun (snd (sky_minipack_fread_bstring st)) = true.
Proof. repeat split; reflexivity. Qed.

(** The empty string, alone in the stream, is refused. *)
Example fread_bstring_empty_string_run :
  fst (sky_minipack_fread_bstring (sample_state (registry_of []) ∅ [0xa0]))
  = (-1, None).
Proof. reflexivity. Qed.

(** ** Saving, then loading *)

(** *** The primitives read back what they write *)

Lemma be_bytes_length n v : length (be_bytes n v) = n.
Proof. induction n; simpl; congruence. Qed.

Lemma be_value_from (bs : list Z) (acc : Z) :
  fold_left (fun acc b => acc * 256 + b) bs acc
  = acc * 256 ^ Z.of_nat (length bs) + be_value bs.
Proof.
  unfold be_value. revert acc.
  induction bs as [|b bs IH]; intros acc; [simpl; lia|].
  cbn [fold_left length]. rewrite IH, (IH (0 * 256 + b)).
  rewrite Nat2Z.inj_succ, Z.pow_succ_r by lia. ring.
Qed.

Lemma be_value_be_bytes (n : nat) (v : Z) :
  be_value (be_bytes n v) = v mod 256 ^ Z.of_nat n.
Proof.
  induction n as [|n IH]; [simpl; now rewrite Z.mod_1_r|].
  cbn [be_bytes]. unfold be_value. cbn [fold_left].
  rewrite be_value_from, be_bytes_length, IH.
  rewrite Nat2Z.inj_succ, Z.pow_succ_r by lia.
  rewrite (Z.mul_comm 256), Z.rem_mul_r by lia. ring.
Qed.

Lemma be_value_small (n : nat) (v : Z) :
  0 <= v < 256 ^ Z.of_nat n -> be_value (be_bytes n v) = v.
Proof. intros H. rewrite be_value_be_bytes. now apply Z.mod_small. Qed.

Lemma signed_mod (bits v : Z) :
  0 < bits -> - 2 ^ (bits - 1) <= v < 2 ^ (bits - 1) ->
  signed bits (v mod 2 ^ bits) = v.
Proof.
  intros Hb Hv. unfold signed.
  assert (E : 2 ^ bits = 2 * 2 ^ (bits - 1)).
  { rewrite <- Z.pow_succ_r by lia. f_equal. lia. }
  destruct (Z_lt_le_dec v 0) as [Hneg|Hpos].
  - rewrite <- (Z.mod_add v 1) by lia. rewrite Z.mod_small by lia.
    destruct (v + 1 * 2 ^ bits <? 2 ^ (bits - 1)) eqn:C; [|lia].
    apply Z.ltb_lt in C. lia.
  - rewrite Z.mod_small by lia.
    destruct (v <? 2 ^ (bits - 1)) eqn:C; [reflexivity|].
    apply Z.ltb_ge in C. lia.
Qed.

Lemma fix_tag (base c : Z) (n : nat) :
  0 <= c < Z.of_nat n ->
  Forall (fun k => Z.land (Z.lor base k) (Z.of_nat n - 1) = k
                   /\ base <= Z.lor base k <= base + Z.of_nat n - 1)
         (map Z.of_nat (seq 0 n)) ->
  Z.land (Z.lor base c) (Z.of_nat n - 1) = c
  /\ base <= Z.lor base c <= base + Z.of_nat n - 1.
Proof.
  intros Hc Hall. rewrite Forall_forall in Hall. apply Hall.
  apply list_elem_of_In, in_map_iff. exists (Z.to_nat c). split; [lia|].
  apply in_seq. lia.
Qed.

Lemma fixarray_tag c : 0 <= c <= 15 ->
  Z.land (Z.lor 0x90 c) 0x0f = c /\ 0x90 <= Z.lor 0x90 c <= 0x9f.
Proof.
  intros H. apply (fix_tag 0x90 c 16); [simpl; lia|].
  simpl map.
  repeat (constructor; [split; [reflexivity | split; discriminate] |]).
  constructor.
Qed.

Lemma fixraw_tag c : 0 <= c <= 31 ->
  Z.land (Z.lor 0xa0 c) 0x1f = c /\ 0xa0 <= Z.lor 0xa0 c <= 0xbf.
Proof.
  intros H. apply (fix_tag 0xa0 c 32); [simpl; lia|].
  simpl map.
  repeat (constructor; [split; [reflexivity | split; discriminate] |]).
  constructor.
Qed.

Lemma reads_ret {A} (R : list Z) (a : A) : reads R (ret a) a R.
Proof. intros st H. now exists st. Qed.

Lemma reads_bind {A B} (R R1 R2 : list Z) (m : M A) (k : A -> M B) a b :
  reads R m a R1 -> reads R1 (k a) b R2 -> reads R (bind m k) b R2.
Proof.
  intros Hm Hk st H. destruct (Hm st H) as (st1 & E1 & H1).
  destruct (Hk st1 H1) as (st2 & E2 & H2).
  exists st2. unfold bind. now rewrite E1.
Qed.

(** A read of exactly the bytes [bs] that come next. *)
Lemma fread_reads (bs rest : list Z) :
  bs <> [] -> reads (bs ++ rest) (fread (Z.of_nat (length bs)) 1) (1, bs) rest.
Proof.
  intros Hne st H. eexists. split.
  - unfold fread. fold (remaining st). rewrite H.
    rewrite Z.mul_1_r, Nat2Z.id, take_app_length.
    rewrite Z.div_same; [reflexivity|].
    destruct bs; [contradiction | simpl; lia].
  - unfold remaining. simpl. rewrite <- drop_drop. fold (remaining st).
    rewrite H. apply drop_app_length.
Qed.

Lemma fread_tag_reads (t : Z) (rest : list Z) :
  reads (t :: rest) (fread 1 1) (1, [t]) rest.
Proof. now apply (fread_reads [t] rest). Qed.

Lemma fread_field_reads (n : nat) (v : Z) (rest : list Z) :
  (0 < n)%nat -> 0 <= v < 256 ^ Z.of_nat n ->
  reads (be_bytes n v ++ rest) (fread_field (Z.of_nat n))
        (v, Z.of_nat n + 1) rest.
Proof.
  intros Hn Hv. unfold fread_field.
  eapply reads_bind.
  - rewrite <- (be_bytes_length n v) at 2. apply fread_reads.
    destruct n; [lia | discriminate].
  - simpl. rewrite (be_value_small n v Hv). apply reads_ret.
Qed.

Lemma minipack_fread_array_reads (count : Z) (rest : list Z) :
  0 <= count < 2 ^ 32 ->
  exists sz, sz <> 0
    /\ reads (pack_array count ++ rest) minipack_fread_array (count, sz) rest.
Proof.
  intros H. unfold pack_array, minipack_fread_array.
  destruct (count <=? 15) eqn:C1; [|destruct (count <=? 0xffff) eqn:C2].
  - apply Z.leb_le in C1. exists 1. split; [lia|].
    destruct (fixarray_tag count) as (Hval & Hlo & Hhi); [lia|].
    eapply reads_bind; [apply fread_tag_reads|]. cbv iota beta.
    rewrite (proj2 (Z.leb_le _ _) Hlo), (proj2 (Z.leb_le _ _) Hhi).
    simpl andb. cbv iota. rewrite Hval. apply reads_ret.
  - apply Z.leb_le in C2. exists 3. split; [lia|].
    eapply reads_bind; [apply fread_tag_reads|].
    apply (fread_field_reads 2 count rest); [lia|]. 
    change (256 ^ Z.of_nat 2) with 65536. lia.
  - exists 5. split; [lia|].
    eapply reads_bind; [apply fread_tag_reads|].
    apply (fread_field_reads 4 count rest); [lia|]. exact H.
Qed.

Lemma minipack_fread_raw_reads (len : Z) (rest : list Z) :
  0 <= len < 2 ^ 32 ->
  exists sz, sz <> 0
    /\ reads (pack_raw len ++ rest) minipack_fread_raw (len, sz) rest.
Proof.
  intros H. unfold pack_raw, minipack_fread_raw.
  destruct (len <=? 31) eqn:C1; [|destruct (len <=? 0xffff) eqn:C2].
  - apply Z.leb_le in C1. exists 1. split; [lia|].
    destruct (fixraw_tag len) as (Hval & Hlo & Hhi); [lia|].
    eapply reads_bind; [apply fread_tag_reads|]. cbv iota beta.
    rewrite (proj2 (Z.leb_le _ _) Hlo), (proj2 (Z.leb_le _ _) Hhi).
    simpl andb. cbv iota. rewrite Hval. apply reads_ret.
  - apply Z.leb_le in C2. exists 3. split; [lia|].
    eapply reads_bind; [apply fread_tag_reads|].
    apply (fread_field_reads 2 len rest); [lia|].
    change (256 ^ Z.of_nat 2) with 65536. lia.
  - exists 5. split; [lia|].
    eapply reads_bind; [apply fread_tag_reads|].
    apply (fread_field_reads 4 len rest); [lia|]. exact H.
Qed.

Lemma fread_signed_field_reads (n : nat) (v : Z) (rest : list Z) :
  (0 < n)%nat ->
  - 2 ^ (8 * Z.of_nat n - 1) <= v < 2 ^ (8 * Z.of_nat n - 1) ->
  reads (be_bytes n (v mod 2 ^ (8 * Z.of_nat n)) ++ rest)
        (fread_signed_field (Z.of_nat n)) (v, Z.of_nat n + 1) rest.
Proof.
  intros Hn Hv. unfold fread_signed_field.
  assert (E : 256 ^ Z.of_nat n = 2 ^ (8 * Z.of_nat n)).
  { change 256 with (2 ^ 8). rewrite <- Z.pow_mul_r by lia. reflexivity. }
  eapply reads_bind.
  - apply fread_field_reads; [exact Hn|]. rewrite E.
    apply Z.mod_pos_bound. lia.
  - cbv iota beta.
    destruct (Z.of_nat n + 1 =? 0) eqn:C; [apply Z.eqb_eq in C; lia|].
    rewrite signed_mod by lia. apply reads_ret.
Qed.

Lemma minipack_fread_int_reads (v : Z) (rest : list Z) :
  - 2 ^ 63 <= v < 2 ^ 63 ->
  exists sz, sz <> 0
    /\ reads (pack_int v ++ rest) minipack_fread_int (v, sz) rest.
Proof.
  intros H. unfold pack_int, minipack_fread_int.
  destruct ((0 <=? v) && (v <=? 127)) eqn:C1.
  { apply andb_true_iff in C1 as [A B]. apply Z.leb_le in A, B.
    exists 1. split; [lia|].
    eapply reads_bind; [apply fread_tag_reads|]. cbv iota beta.
    rewrite (proj2 (Z.leb_le _ _) B). apply reads_ret. }
  destruct ((-32 <=? v) && (v <=? -1)) eqn:C2.
  { apply andb_true_iff in C2 as [A B]. apply Z.leb_le in A, B.
    exists 1. split; [lia|].
    eapply reads_bind; [apply fread_tag_reads|]. cbv iota beta.
    destruct (v + 256 <=? 127) eqn:D1; [apply Z.leb_le in D1; lia|].
    destruct (224 <=? v + 256) eqn:D2; [|apply Z.leb_gt in D2; lia].
    replace (v + 256 - 256) with v by lia. apply reads_ret. }
  destruct ((- 2 ^ 7 <=? v) && (v <? 2 ^ 7)) eqn:C3.
  { apply andb_true_iff in C3 as [A B]. apply Z.leb_le in A. apply Z.ltb_lt in B.
    exists 2. split; [lia|].
    eapply reads_bind; [apply fread_tag_reads|].
    apply (fread_signed_field_reads 1 v rest); [lia|]. simpl; lia. }
  destruct ((- 2 ^ 15 <=? v) && (v <? 2 ^ 15)) eqn:C4.
  { apply andb_true_iff in C4 as [A B]. apply Z.leb_le in A. apply Z.ltb_lt in B.
    exists 3. split; [lia|].
    eapply reads_bind; [apply fread_tag_reads|].
    apply (fread_signed_field_reads 2 v rest); [lia|]. simpl; lia. }
  destruct ((- 2 ^ 31 <=? v) && (v <? 2 ^ 31)) eqn:C5.
  { apply andb_true_iff in C5 as [A B]. apply Z.leb_le in A. apply Z.ltb_lt in B.
    exists 5. split; [lia|].
    eapply reads_bind; [apply fread_tag_reads|].
    apply (fread_signed_field_reads 4 v rest); [lia|]. simpl; lia. }
  exists 9. split; [lia|].
  eapply reads_bind; [apply fread_tag_reads|].
  apply (fread_signed_field_reads 8 v rest); [lia|]. simpl; lia.
Qed.

(** *** A string that was written is not read back *)

Lemma dooms_bind_fail {A B} R (m : M A) (k : A -> M B) :
  dooms R m -> dooms R (bind m k).
Proof.
  intros Hm st H. specialize (Hm st H). unfold bind.
  now destruct (m st) as [[a|] st1].
Qed.

Lemma dooms_bind_keeps {A B} R (m : M A) (k : A -> M B) :
  keeps remaining m -> (forall a, dooms R (k a)) -> dooms R (bind m k).
Proof.
  intros Hm Hk st H. specialize (Hm st). unfold bind.
  destruct (m st) as [[a|] st1]; [|reflexivity].
  apply Hk. simpl in Hm. congruence.
Qed.

Lemma dooms_bind_reads {A B} R R1 (m : M A) (k : A -> M B) a :
  reads R m a R1 -> dooms R1 (k a) -> dooms R (bind m k).
Proof.
  intros Hm Hk st H. destruct (Hm st H) as (st1 & E1 & H1).
  unfold bind. rewrite E1. now apply Hk.
Qed.

Lemma next_call_ok_keeps_remaining : keeps remaining next_call_ok.
Proof. intros st. unfold next_call_ok. now destruct (schedule st). Qed.

#[local] Hint Resolve next_call_ok_keeps_remaining : core.

Lemma malloc_keeps_remaining n : keeps remaining (malloc n).
Proof. unfold malloc. keeps_auto. Qed.

Lemma sky_action_create_keeps_remaining : keeps remaining sky_action_create.
Proof. unfold sky_action_create. keeps_auto. Qed.

(** When [sizeof_char_ptr * len] bytes follow, [fread] delivers [len]
    items. *)
Lemma fread_full_items (len : Z) (payload more : list Z) (st : state) :
  0 <= len -> length payload = Z.to_nat (sizeof_char_ptr * len) ->
  remaining st = payload ++ more ->
  exists got st', fread sizeof_char_ptr len st = (Some (len, got), st').
Proof.
  intros Hlen Hpay H. unfold fread. fold (remaining st).
  rewrite length_take.
  rewrite (proj2 (fread_items_eq_iff (length (remaining st)) len Hlen)).
  - eauto.
  - rewrite H, length_app. lia.
Qed.

Lemma fread_bstring_body_dooms (len : Z) (payload more : list Z) :
  0 <= len < 2 ^ 32 -> length payload = Z.to_nat (sizeof_char_ptr * len) ->
  dooms (pack_raw len ++ payload ++ more) fread_bstring_body.
Proof.
  intros Hlen Hpay. unfold fread_bstring_body.
  destruct (minipack_fread_raw_reads len (payload ++ more) Hlen)
    as (sz & Hsz & Hraw).
  eapply dooms_bind_reads; [exact Hraw|]. cbv iota beta.
  apply dooms_bind_keeps; [apply keeps_check|]. intros _.
  apply dooms_bind_keeps; [apply malloc_keeps_remaining|]. intros buffer.
  apply dooms_bind_keeps; [apply keeps_check_mem|]. intros buf.
  apply dooms_bind_keeps; [apply keeps_modify; intros ?; reflexivity|].
  intros _. intros st H. unfold bind.
  destruct (fread_full_items len payload more st) as (got & st' & E);
    [lia | exact Hpay | exact H |].
  rewrite E. unfold check. now rewrite Z.eqb_refl.
Qed.

(** What [sky_minipack_fwrite_bstring] writes for a string of [len] bytes,
    [sky_minipack_fread_bstring] refuses. *)
Lemma fread_bstring_refuses_written (len : Z) (payload more : list Z) st :
  0 <= len < 2 ^ 32 -> length payload = Z.to_nat (sizeof_char_ptr * len) ->
  remaining st = pack_raw len ++ payload ++ more ->
  fst (sky_minipack_fread_bstring st) = (-1, None).
Proof.
  intros Hlen Hpay H. unfold sky_minipack_fread_bstring, or_else.
  pose proof (dooms_bind_fail _ _ (fun str => ret (0, Some str))
                (fread_bstring_body_dooms len payload more Hlen Hpay) st H)
    as D.
  now destruct (bind fread_bstring_body _ st) as [[r|] st1].
Qed.

Lemma load_actions_dooms action_file (n : nat) acc (v len : Z)
    (payload more : list Z) :
  - 2 ^ 63 <= v < 2 ^ 63 -> 0 <= len < 2 ^ 32 ->
  length payload = Z.to_nat (sizeof_char_ptr * len) ->
  dooms (pack_int v ++ pack_raw len ++ payload ++ more)
        (load_actions action_file (S n) acc).
Proof.
  intros Hv Hlen Hpay. cbn [load_actions].
  apply dooms_bind_keeps; [apply sky_action_create_keeps_remaining|].
  intros action.
  apply dooms_bind_keeps; [apply keeps_check_mem|]. intros created.
  destruct (minipack_fread_int_reads v (pack_raw len ++ payload ++ more) Hv)
    as (sz & Hsz & Hint).
  eapply dooms_bind_reads; [exact Hint|]. cbv iota beta zeta.
  apply dooms_bind_keeps; [apply keeps_check|]. intros _.
  intros st H. unfold bind, call.
  pose proof (fread_bstring_refuses_written len payload more st Hlen Hpay H)
    as E.
  destruct (sky_minipack_fread_bstring st) as [[rc nm] st1].
  simpl in E. injection E as -> ->. reflexivity.
Qed.

Lemma fopen_r_opens (p : string) (c : list Z) (st : state) :
  fs st !! p = Some c ->
  (exists st', fopen_r (Some p) st = (Some None, st'))
  \/ (exists st', fopen_r (Some p) st = (Some (Some tt), st')
                  /\ remaining st' = c).
Proof.
  intros H. unfold fopen_r, bind, next_call_ok, gets, modify, ret.
  destruct (schedule st) as [|[] rest]; simpl; rewrite H; simpl; eauto.
Qed.

Lemma load_file_fails action_file (p : string) (st : state)
    (count v len : Z) (payload more : list Z) :
  0 < count < 2 ^ 32 -> - 2 ^ 63 <= v < 2 ^ 63 -> 0 <= len < 2 ^ 32 ->
  length payload = Z.to_nat (sizeof_char_ptr * len) ->
  fs st !! p
  = Some (pack_array count ++ pack_int v ++ pack_raw len ++ payload ++ more) ->
  fst (load_file action_file (Some p) st) = None.
Proof.
  intros Hcount Hv Hlen Hpay Hfile. unfold load_file. unfold bind at 1.
  destruct (fopen_r_opens p _ st Hfile) as [(st' & E)|(st' & E & H)];
    rewrite E; [reflexivity|].
  clear E. revert st' H.
  change (dooms (pack_array count ++ pack_int v ++ pack_raw len
                 ++ payload ++ more)
            (_ <- check_mem (Some tt) ;;
             '(count, sz) <- minipack_fread_array ;;
             check (negb (sz =? 0)) ;;;
             arr <- malloc (8 * count) ;;
             check (negb (0 <? count) || nonnull arr) ;;;
             loaded <- load_actions action_file (Z.to_nat count) [] ;;
             ret (loaded, count))%sky).
  apply dooms_bind_keeps; [apply keeps_check_mem|]. intros _.
  destruct (minipack_fread_array_reads count
              (pack_int v ++ pack_raw len ++ payload ++ more))
    as (sz & Hsz & Harr); [lia|].
  eapply dooms_bind_reads; [exact Harr|]. cbv iota beta.
  apply dooms_bind_keeps; [apply keeps_check|]. intros _.
  apply dooms_bind_keeps; [apply malloc_keeps_remaining|]. intros arr.
  apply dooms_bind_keeps; [apply keeps_check|]. intros _.
  apply dooms_bind_fail.
  destruct (Z.to_nat count) as [|n] eqn:En; [lia|].
  now apply load_actions_dooms.
Qed.
(** *** What a successful save has written *)

Lemma bind_inv_Some {A B} (m : M A) (k : A -> M B) st b st' :
  bind m k st = (Some b, st') ->
  exists a st1, m st = (Some a, st1) /\ k a st1 = (Some b, st').
Proof.
  unfold bind. destruct (m st) as [[a|] st1]; [eauto | discriminate].
Qed.

Lemma check_inv b st st' : check b st = (Some tt, st') -> b = true /\ st' = st.
Proof. unfold check. destruct b; [|discriminate]. intros E. now inversion E. Qed.

Lemma keeps_appends {A} out (m : M A) : keeps fs m -> appends out m.
Proof.
  intros K st c H. exists []. now rewrite K, app_nil_r.
Qed.

Lemma appends_bind {A B} out (m : M A) (k : A -> M B) :
  appends out m -> (forall a, appends out (k a)) -> appends out (bind m k).
Proof.
  intros Hm Hk st c H. destruct (Hm st c H) as (m1 & H1). unfold bind.
  destruct (m st) as [[a|] st1]; simpl in H1; [|eauto].
  destruct (Hk a st1 _ H1) as (m2 & H2). exists (m1 ++ m2).
  now rewrite H2, app_assoc.
Qed.

Lemma next_call_ok_keeps_fs : keeps fs next_call_ok.
Proof. intros st. unfold next_call_ok. now destruct (schedule st). Qed.

Lemma next_torn_keeps_fs n : keeps fs (next_torn n).
Proof. intros st. unfold next_torn. now destruct (torn st). Qed.

Lemma put_appends out more : appends out (modify (put out more)).
Proof.
  intros st c H. exists more. unfold modify, put. cbn [snd fs with_fs].
  now rewrite lookup_insert_eq, H.
Qed.

Lemma put_then_ret_appends {A} out more (a : A) :
  appends out (modify (put out more) ;;; ret a).
Proof.
  apply appends_bind; [apply put_appends|].
  intros _. apply keeps_appends, keeps_ret.
Qed.

Lemma fwrite_appends out src size nmemb :
  appends out (fwrite out src size nmemb).
Proof.
  unfold fwrite. destruct (size * nmemb =? 0).
  - apply keeps_appends, keeps_ret.
  - apply appends_bind; [apply keeps_appends, next_call_ok_keeps_fs|].
    intros [|]; [apply put_then_ret_appends|].
    apply appends_bind; [apply keeps_appends, next_torn_keeps_fs|].
    intros k. apply put_then_ret_appends.
Qed.

Lemma fwrite_elem_appends out bytes : appends out (fwrite_elem out bytes).
Proof.
  unfold fwrite_elem.
  apply appends_bind; [apply keeps_appends, next_call_ok_keeps_fs|].
  intros [|]; [apply put_then_ret_appends | apply keeps_appends, keeps_ret].
Qed.

Lemma fwrite_bstring_body_appends out str :
  appends out (fwrite_bstring_body out str).
Proof.
  unfold fwrite_bstring_body, minipack_fwrite_raw.
  apply appends_bind; [apply fwrite_elem_appends|]. intros [rc sz].
  apply appends_bind; [apply keeps_appends, keeps_check|]. intros _.
  destruct str as [s|]; [|apply keeps_appends, keeps_ret].
  apply appends_bind; [apply keeps_appends, keeps_gets|]. intros st.
  apply appends_bind; [apply fwrite_appends|]. intros sz'.
  apply keeps_appends, keeps_check.
Qed.

Lemma sky_minipack_fwrite_bstring_appends out str :
  appends out (call (sky_minipack_fwrite_bstring out str)).
Proof.
  intros st c H. unfold call, sky_minipack_fwrite_bstring, or_else.
  pose proof (appends_bind out _ (fun _ => ret 0)
                (fwrite_bstring_body_appends out str)
                (fun _ => keeps_appends out _ (keeps_ret fs 0)) st c H) as D.
  destruct (bind (fwrite_bstring_body out str) _ st) as [[r|] st1]; exact D.
Qed.

Lemma save_actions_appends out l : appends out (save_actions out l).
Proof.
  induction l as [|a l IH]; cbn [save_actions];
    [apply keeps_appends, keeps_ret|].
  apply appends_bind; [apply fwrite_elem_appends|]. intros [rc sz].
  apply appends_bind; [apply keeps_appends, keeps_check|]. intros _.
  apply appends_bind; [apply sky_minipack_fwrite_bstring_appends|]. intros rc'.
  apply appends_bind; [apply keeps_appends, keeps_check|]. intros _.
  exact IH.
Qed.

(** An element is written whole or not at all. *)
Lemma fwrite_elem_writes out bytes st c :
  bytes <> [] -> fs st !! out = Some c ->
  exists st',
    (fwrite_elem out bytes st = (Some (0, Z.of_nat (length bytes)), st')
     /\ fs st' !! out = Some (c ++ bytes) /\ af st' = af st)
    \/ (fwrite_elem out bytes st = (Some (-1, 0), st')).
Proof.
  intros _ H. unfold fwrite_elem, bind, next_call_ok, modify, ret.
  assert (W : forall x, fs x = fs st ->
            fs (put out bytes x) !! out = Some (c ++ bytes)).
  { intros x Hx. unfold put. cbn [fs with_fs].
    now rewrite lookup_insert_eq, Hx, H. }
  destruct (schedule st) as [|[] rest]; cbv iota beta; eexists.
  - left. split; [reflexivity|]. split; [now apply W | reflexivity].
  - left. split; [reflexivity|]. split; [now apply W | reflexivity].
  - right. reflexivity.
Qed.

Lemma pack_raw_not_empty len : pack_raw len <> [].
Proof. unfold pack_raw. now repeat case_match. Qed.

Lemma pack_array_not_empty count : pack_array count <> [].
Proof. unfold pack_array. now repeat case_match. Qed.

Lemma pack_int_not_empty v : pack_int v <> [].
Proof. unfold pack_int. now repeat case_match. Qed.

(** The bytes [fwrite] takes from a string: there are always enough. *)
Lemma bdata_length (s : list Z) st (n : Z) :
  length (bdata s st n) = Z.to_nat n.
Proof.
  unfold bdata, garbage. rewrite length_take, length_app. simpl.
  rewrite length_map, length_seq. lia.
Qed.

(** A write that goes through puts out every byte and returns [nmemb]; one
    that fails puts out fewer bytes and returns the whole items among
    them. *)
Lemma fwrite_outcomes out src size nmemb st c :
  0 < size * nmemb -> fs st !! out = Some c ->
  exists (k : nat) st',
    fs st' !! out = Some (c ++ take k src)
    /\ noise st' = noise st
    /\ ((k = Z.to_nat (size * nmemb)
         /\ fwrite out src size nmemb st = (Some nmemb, st'))
        \/ ((k < Z.to_nat (size * nmemb))%nat
            /\ fwrite out src size nmemb st
               = (Some (Z.of_nat k / size), st'))).
Proof.
  intros Hpos H. unfold fwrite.
  destruct (size * nmemb =? 0) eqn:Z0; [apply Z.eqb_eq in Z0; lia|].
  assert (W : forall k x, fs x = fs st ->
            fs (put out (take k src) x) !! out = Some (c ++ take k src)).
  { intros k x Hx. unfold put. cbn [fs with_fs].
    now rewrite lookup_insert_eq, Hx, H. }
  unfold bind, next_call_ok, next_torn, modify, ret.
  set (n := Z.to_nat (size * nmemb)).
  destruct (schedule st) as [|[] rest]; cbv iota beta.
  - exists n, (put out (take n src) st).
    split; [now apply W|]. split; [reflexivity|]. now left.
  - exists n, (put out (take n src) (with_schedule rest st)).
    split; [now apply W|]. split; [reflexivity|]. now left.
  - cbn [torn with_schedule]. destruct (torn st) as [|k more].
    + exists 0%nat, (put out (take 0 src) (with_schedule rest st)).
      split; [now apply W|]. split; [reflexivity|]. right.
      split; [lia | reflexivity].
    + exists (Nat.min k (n - 1)),
        (put out (take (Nat.min k (n - 1)) src)
           (with_torn more (with_schedule rest st))).
      split; [now apply W|]. split; [reflexivity|]. right.
      split; [lia | reflexivity].
Qed.

(** A failing write returns fewer items than it was asked for. *)
Lemma torn_items_short (k : nat) (size nmemb : Z) :
  0 < size -> (k < Z.to_nat (size * nmemb))%nat ->
  Z.of_nat k / size < nmemb.
Proof. intros Hs Hk. apply Z.div_lt_upper_bound; lia. Qed.

(** A string written with success: its header, then [sizeof_char_ptr] bytes
    for each byte of the string. *)
Lemma fwrite_bstring_writes out str st c st' :
  fs st !! out = Some c ->
  sky_minipack_fwrite_bstring out str st = (0, st') ->
  exists payload,
    length payload = Z.to_nat (sizeof_char_ptr * blength str)
    /\ fs st' !! out = Some (c ++ pack_raw (blength str) ++ payload).
Proof.
  intros H. unfold sky_minipack_fwrite_bstring, or_else.
  destruct (bind (fwrite_bstring_body out str) _ st) as [[r|] st1] eqn:E;
    [|discriminate].
  intros E'. inversion E'; subst r st1. clear E'.
  apply bind_inv_Some in E as ([] & st1 & E & R). inversion R; subst st1.
  clear R. unfold fwrite_bstring_body, minipack_fwrite_raw in E.
  apply bind_inv_Some in E as ([rc sz] & st1 & E1 & E).
  destruct (fwrite_elem_writes out (pack_raw (blength str)) st c
              (pack_raw_not_empty _) H) as (st2 & [(W & F & _)|W]);
    rewrite W in E1; inversion E1; subst rc sz st2; clear E1;
    apply bind_inv_Some in E as ([] & st2 & E1 & E);
    apply check_inv in E1 as [C ->]; [|discriminate].
  destruct str as [s|].
  - apply bind_inv_Some in E as (st0 & st2 & E1 & E).
    inversion E1; subst st0 st2. clear E1.
    apply bind_inv_Some in E as (n & st2 & E1 & E).
    apply check_inv in E as [E ->]. apply Z.eqb_eq in E.
    destruct (sizeof_char_ptr * blength (Some s) =? 0) eqn:Z0.
    + unfold fwrite in E1. rewrite Z0 in E1.
      injection E1 as _ <-. exists []. apply Z.eqb_eq in Z0.
      rewrite Z0, app_nil_r. now split.
    + assert (Hpos : 0 < sizeof_char_ptr * blength (Some s)).
      { apply Z.eqb_neq in Z0. unfold sizeof_char_ptr, blength in *. lia. }
      destruct (fwrite_outcomes out
                  (bdata s st1 (sizeof_char_ptr * blength (Some s)))
                  sizeof_char_ptr (blength (Some s)) st1 _ Hpos F)
        as (k & st3 & F3 & _ & [[-> W2]|[Hk W2]]);
        rewrite W2 in E1; injection E1 as E2 <-.
      * eexists. split; [|rewrite F3, <- app_assoc; reflexivity].
        rewrite length_take, bdata_length. lia.
      * pose proof (torn_items_short k sizeof_char_ptr (blength (Some s))
                      eq_refl Hk). lia.
  - injection E as <-. exists []. split; [reflexivity|].
    now rewrite app_nil_r.
Qed.

Lemma save_actions_writes out a l st c st' :
  fs st !! out = Some c ->
  save_actions out (a :: l) st = (Some tt, st') ->
  exists payload more,
    length payload = Z.to_nat (sizeof_char_ptr * blength (name a))
    /\ fs st' !! out
       = Some (c ++ pack_int (int64 (id a)) ++ pack_raw (blength (name a))
                 ++ payload ++ more).
Proof.
  intros H E. cbn [save_actions] in E. unfold minipack_fwrite_int in E.
  apply bind_inv_Some in E as ([rc sz] & st1 & E1 & E).
  destruct (fwrite_elem_writes out (pack_int (int64 (id a))) st c
              (pack_int_not_empty _) H) as (st2 & [(W & F & _)|W]);
    rewrite W in E1; injection E1 as <- <- <-;
    apply bind_inv_Some in E as ([] & st2' & E1 & E);
    apply check_inv in E1 as [C ->].
  2:{ discriminate C. }
  apply bind_inv_Some in E as (rc & st3 & E1 & E).
  apply bind_inv_Some in E as ([] & st3' & E2 & E).
  apply check_inv in E2 as [C2 ->]. apply Z.eqb_eq in C2. subst rc.
  unfold call in E1.
  destruct (sky_minipack_fwrite_bstring out (name a) st2) as [rc st4] eqn:B.
  injection E1 as -> ->.
  destruct (fwrite_bstring_writes out (name a) st2 _ st3 F B)
    as (payload & Hlen & F2).
  destruct (save_actions_appends out l st3 _ F2) as (more & F3).
  rewrite E in F3. simpl in F3.
  exists payload, more. split; [exact Hlen|].
  rewrite F3. f_equal. now rewrite <- !app_assoc.
Qed.

Lemma fopen_w_opens (p : string) st out st1 :
  fopen_w (Some p) st = (Some (Some out), st1) ->
  out = p /\ fs st1 !! p = Some [] /\ af st1 = af st.
Proof.
  unfold fopen_w, bind, next_call_ok, modify, ret.
  destruct (schedule st) as [|[] rest]; cbv iota beta; intros E;
    try discriminate; injection E as <- <-;
    (split; [reflexivity|]); (split; [|reflexivity]);
    simpl; apply lookup_insert_eq.
Qed.

Lemma save_file_writes (p : string) st a l st' :
  take (Z.to_nat (action_count (af st))) (actions (af st)) = a :: l ->
  save_file (Some p) st = (Some tt, st') ->
  exists payload more,
    length payload = Z.to_nat (sizeof_char_ptr * blength (name a))
    /\ fs st' !! p
       = Some (pack_array (uint32 (action_count (af st)))
                 ++ pack_int (int64 (id a)) ++ pack_raw (blength (name a))
                 ++ payload ++ more).
Proof.
  intros Hl E. unfold save_file, minipack_fwrite_array in E.
  apply bind_inv_Some in E as (f & st1 & E1 & E).
  apply bind_inv_Some in E as (out & st1' & E2 & E).
  injection E2 as -> <-.
  apply fopen_w_opens in E1 as (-> & F & A).
  apply bind_inv_Some in E as (count & st1' & E2 & E).
  injection E2 as <- <-. rewrite A in E.
  apply bind_inv_Some in E as ([rc sz] & st2 & E1 & E).
  destruct (fwrite_elem_writes p (pack_array (uint32 (action_count (af st))))
              st1 [] (pack_array_not_empty _) F) as (st3 & [(W & F2 & A2)|W]);
    rewrite W in E1; injection E1 as <- <- <-;
    apply bind_inv_Some in E as ([] & st2' & E1 & E);
    apply check_inv in E1 as [C ->].
  2:{ discriminate C. }
  apply bind_inv_Some in E as (l' & st3' & E1 & E).
  injection E1 as <- <-. rewrite A2, A, Hl in E.
  apply (save_actions_writes p a l st3 _ st' F2 E).
Qed.

Lemma int64_range z : - 2 ^ 63 <= int64 z < 2 ^ 63.
Proof.
  unfold int64. pose proof (Z.mod_pos_bound z (2 ^ 64) eq_refl) as B.
  destruct (z mod 2 ^ 64 <? 2 ^ 63) eqn:C.
  - apply Z.ltb_lt in C. lia.
  - apply Z.ltb_ge in C. lia.
Qed.

Lemma save_body_existing (p : ptr) st t dir :
  table (af st) = Some t -> path t = Some dir ->
  is_Some (fs st !! (dir ++ "/actions")%string) ->
  save_body (Some p) st = save_file (Some (dir ++ "/actions")%string) st.
Proof.
  intros Ht Hd Hex. unfold save_body, bind, check, call. simpl.
  rewrite (sky_action_file_get_path_ok p st t dir Ht Hd). simpl.
  unfold sky_file_exists, gets. now rewrite bool_decide_eq_true_2.
Qed.

Lemma load_after_unload_existing (p : ptr) st t dir :
  table (af st) = Some t -> path t = Some dir ->
  is_Some (fs st !! (dir ++ "/actions")%string) ->
  fst (load_file (Some p) (Some (dir ++ "/actions")%string) st) = None ->
  fst (load_after_unload (Some p) st) = None.
Proof.
  intros Ht Hd Hex Hfail. unfold load_after_unload, bind, check, call.
  rewrite (sky_action_file_get_path_ok p st t dir Ht Hd). simpl.
  unfold sky_file_exists, gets. rewrite bool_decide_eq_true_2 by exact Hex.
  destruct (load_file _ _ st) as [[r|] st1]; [discriminate | reflexivity].
Qed.

(** *** The round trip *)

(** C2, code defect: for every registry that holds at least one action, with
    its count the length of its array and a file already on disk, a save that
    succeeds is followed by a load that fails, whatever the identifiers and
    the names and whichever calls to the system fail during the load. *)
Theorem save_then_load_fails (p : ptr) (st : state) (t : sky_table)
    (dir : string) (c0 : list Z) (a : sky_action) (l : list sky_action) :
  table (af st) = Some t -> path t = Some dir ->
  fs st !! (dir ++ "/actions")%string = Some c0 ->
  actions (af st) = a :: l ->
  action_count (af st) = Z.of_nat (length (a :: l)) ->
  action_count (af st) < 2 ^ 32 ->
  blength (name a) < 2 ^ 32 ->
  fst (sky_action_file_save (Some p) st) = 0 ->
  fst (sky_action_file_load (Some p) (snd (sky_action_file_save (Some p) st)))
  = -1.
Proof.
  intros Ht Hd Hfile Hact Hcount Hsmall Hname Hsaved.
  assert (Hex : is_Some (fs st !! (dir ++ "/actions")%string)) by eauto.
  pose proof (save_body_keeps_af (Some p) st) as Haf.
  unfold sky_action_file_save, or_else, bind in *.
  rewrite (save_body_existing p st t dir Ht Hd Hex) in *.
  destruct (save_file _ st) as [[[]|] st1] eqn:S; [|discriminate Hsaved].
  simpl in Haf |- *. clear Hsaved.
  destruct (save_file_writes (dir ++ "/actions")%string st a l st1) as (payload & more & Hlen & F);
    [|exact S|].
  { rewrite Hact, Hcount, Nat2Z.id. apply firstn_all. }
  unfold sky_action_file_load, or_else, bind. rewrite load_body_unloads.
  set (st2 := with_af (empty_action_file (table (af st1))) st1).
  assert (D : fst (load_after_unload (Some p) st2) = None).
  { apply (load_after_unload_existing p st2 t dir).
    - simpl. now rewrite Haf.
    - exact Hd.
    - simpl. rewrite F. eauto.
    - apply (load_file_fails (Some p) _ st2
               (uint32 (action_count (af st))) (int64 (id a))
               (blength (name a)) payload more).
      + unfold uint32. rewrite Z.mod_small; simpl length in Hcount; lia.
      + apply int64_range.
      + destruct (name a); simpl in *; lia.
      + exact Hlen.
      + exact F. }
  destruct (load_after_unload (Some p) st2) as [[r|] st3];
    [discriminate D | reflexivity].
Qed.

Lemma save_then_load_fails_witness :
  fst (sky_action_file_save (Some 1%N)
         (sample_state (registry_of [stored 1 [0x61]; stored 2 [0x62; 0x63]])
            {[ "/db/users/actions"%string := [] ]} [])) = 0
  /\ fst (sky_action_file_load (Some 1%N)
            (snd (sky_action_file_save (Some 1%N)
                    (sample_state
                       (registry_of [stored 1 [0x61]; stored 2 [0x62; 0x63]])
                       {[ "/db/users/actions"%string := [] ]} [])))) = -1.
Proof.
  split; [reflexivity|].
  apply (save_then_load_fails 1%N
           (sample_state (registry_of [stored 1 [0x61]; stored 2 [0x62; 0x63]])
              {[ "/db/users/actions"%string := [] ]} [])
           sample_table "/db/users"%string [] (stored 1 [0x61])
           [stored 2 [0x62; 0x63]]); reflexivity.
Defined.


(** The same on one action named "a", with the code run: the save writes
    the header, the identifier, the string header and then eight bytes for
    the one-byte name; the load that follows fails and leaves the registry
    empty. *)
Example save_then_load_run :
  let st := sample_state (registry_of [stored 1 [0x61]])
              {[ "/db/users/actions"%string := [] ]} [] in
  let saved := sky_action_file_save (Some 1%N) st in
  let loaded := sky_action_file_load (Some 1%N) (snd saved) in
  fst saved = 0
  /\ fs (snd saved) !! "/db/users/actions"%string
     = Some [0x91; 0x01; 0xa1; 0x61; 0; 0; 0; 0; 0; 0; 0]
  /\ fst loaded = -1
  /\ af (snd loaded) = registry_of [].
Proof. repeat split; reflexivity. Qed.

(** With no action the round trip does hold. *)
Example save_then_load_empty_run :
  let st := sample_state (registry_of [])
              {[ "/db/users/actions"%string := [0xc1] ]} [] in
  let saved := sky_action_file_save (Some 1%N) st in
  let loaded := sky_action_file_load (Some 1%N) (snd saved) in
  fst saved = 0 /\ fst loaded = 0 /\ af (snd loaded) = registry_of [].
Proof. repeat split; reflexivity. Qed.

(** * Further properties *)

(** ** The lookup *)

Lemma biseq_1 (a b : option bstring) :
  (biseq a b =? 1) = true <-> exists x, a = Some x /\ b = Some x.
Proof.
  unfold biseq. destruct a as [x|], b as [y|]; simpl;
    try (split; [discriminate | intros (z & H1 & H2); discriminate]).
  destruct (bool_decide (x = y)) eqn:E.
  - apply bool_decide_eq_true in E. subst y. split; eauto.
  - apply bool_decide_eq_false in E. split; [discriminate|].
    intros (z & H1 & H2). congruence.
Qed.

(** [find_first] returns the first action the query matches. *)
Lemma find_first_Some (l : list sky_action) (nm : option bstring) a :
  find_first l nm = Some a ->
  exists i y, l !! i = Some a /\ nm = Some y /\ name a = Some y
    /\ forall j b, (j < i)%nat -> l !! j = Some b -> name b <> Some y.
Proof.
  induction l as [|x l IH]; [discriminate|]. cbn [find_first].
  destruct (biseq (name x) nm =? 1) eqn:E.
  - intros [= <-]. apply biseq_1 in E as (y & H1 & H2). exists 0%nat, y.
    repeat split; try assumption. intros j b Hj. lia.
  - intros H. destruct (IH H) as (i & y & Hi & Hq & Hn & Hfirst).
    exists (S i), y. repeat split; try assumption.
    intros [|j] b Hj Hb.
    + injection Hb as <-. intros Heq.
      assert (C : (biseq (name x) nm =? 1) = true)
        by (apply biseq_1; eauto).
      congruence.
    + apply (Hfirst j b); [lia | exact Hb].
Qed.

Lemma find_first_None (l : list sky_action) (y : bstring) :
  find_first l (Some y) = None
  <-> forall i b, l !! i = Some b -> name b <> Some y.
Proof.
  induction l as [|x l IH]; cbn [find_first].
  - split; [intros _ i b H; discriminate | reflexivity].
  - destruct (biseq (name x) (Some y) =? 1) eqn:E.
    + apply biseq_1 in E as (z & H1 & [= <-]). split; [discriminate|].
      intros H. now destruct (H 0%nat x eq_refl).
    + rewrite IH. split.
      * intros H [|i] b Hb; [|now apply (H i)].
        injection Hb as <-. intros Hx.
        assert (C : (biseq (name x) (Some y) =? 1) = true)
          by (apply biseq_1; eauto).
        congruence.
      * intros H i b Hb. now apply (H (S i)).
Qed.

(** The lookup leaves the state alone. *)
Lemma sky_action_file_find_action_by_name_state action_file nm st :
  snd (sky_action_file_find_action_by_name action_file nm st) = st.
Proof.
  unfold sky_action_file_find_action_by_name, or_else, bind, check, gets, ret.
  destruct action_file, nm; reflexivity.
Qed.

(** X1: when the lookup returns an action, it is a stored one, in a slot
    below [action_count], it bears the name asked for, and no action in an
    earlier slot bears that name. *)
Theorem find_action_by_name_returns_first_match (p : ptr) (nm : bstring)
    (a : sky_action) (st : state) :
  fst (sky_action_file_find_action_by_name (Some p) (Some nm) st)
  = (0, Some a) ->
  exists i : nat,
    Z.of_nat i < action_count (af st)
    /\ actions (af st) !! i = Some a
    /\ name a = Some nm
    /\ forall (j : nat) (b : sky_action),
         (j < i)%nat -> actions (af st) !! j = Some b -> name b <> Some nm.
Proof.
  cbn. intros [= H]. apply find_first_Some in H
    as (i & y & Hi & [= <-] & Hn & Hfirst).
  apply lookup_take_Some in Hi as [Hi Hlt]. exists i.
  split; [lia|]. split; [exact Hi|]. split; [exact Hn|].
  intros j b Hj Hb. apply (Hfirst j b Hj).
  apply lookup_take_Some. split; [exact Hb | lia].
Qed.

Lemma find_action_by_name_returns_first_match_witness :
  exists i : nat,
    Z.of_nat i < 3
    /\ [stored 1 [0x61]; stored 2 [0x62]; stored 3 [0x62]] !! i
       = Some (stored 2 [0x62])
    /\ name (stored 2 [0x62]) = Some [0x62]
    /\ forall (j : nat) (b : sky_action),
         (j < i)%nat ->
         [stored 1 [0x61]; stored 2 [0x62]; stored 3 [0x62]] !! j = Some b ->
         name b <> Some [0x62].
Proof.
  apply (find_action_by_name_returns_first_match 1%N [0x62] (stored 2 [0x62])
           (sample_state
              (registry_of [stored 1 [0x61]; stored 2 [0x62]; stored 3 [0x62]])
              ∅ [])).
  reflexivity.
Defined.

(** X2: with a non-null name the lookup always returns 0, and it returns a
    null action exactly when no action stored below [action_count] bears the
    name. *)
Theorem find_action_by_name_null_iff_absent (p : ptr) (nm : bstring)
    (st : state) :
  fst (fst (sky_action_file_find_action_by_name (Some p) (Some nm) st)) = 0
  /\ (snd (fst (sky_action_file_find_action_by_name (Some p) (Some nm) st))
      = None
      <-> forall (i : nat) (b : sky_action),
            Z.of_nat i < action_count (af st) ->
            actions (af st) !! i = Some b -> name b <> Some nm).
Proof.
  cbn. split; [reflexivity|]. rewrite find_first_None. split.
  - intros H i b Hi Hb. apply (H i). apply lookup_take_Some.
    split; [exact Hb | lia].
  - intros H i b Hb. apply lookup_take_Some in Hb as [Hb Hi].
    apply (H i b); [lia | exact Hb].
Qed.

(** ** Adding an action, continued *)

Lemma add_action_checks_state self action st :
  snd (add_action_checks self action st) = st.
Proof.
  unfold add_action_checks, bind, check, check_mem, call, ret.
  destruct self as [p|]; simpl; [|reflexivity].
  destruct action as [a|]; simpl; [|reflexivity].
  destruct (id a =? 0); simpl; [|reflexivity].
  destruct (negb (linked a)); simpl; [|reflexivity].
  pose proof (sky_action_file_find_action_by_name_state (Some p) (name a) st)
    as K.
  destruct (sky_action_file_find_action_by_name (Some p) (name a) st)
    as [[rc found] st1].
  simpl in K. subst st1. now destruct ((rc =? 0) && nonnull found).
Qed.

(** What the checks have established when they pass. *)
Lemma add_action_checks_Some self action st a st' :
  add_action_checks self action st = (Some a, st') ->
  exists p nm found,
    self = Some p /\ action = Some a /\ id a = 0 /\ action_file a = None
    /\ name a = Some nm
    /\ find_first (take (Z.to_nat (action_count (af st))) (actions (af st)))
         (Some nm) = Some found.
Proof.
  unfold add_action_checks, bind, check, check_mem, call, ret, linked.
  destruct self as [p|]; simpl; [|discriminate].
  destruct action as [x|]; simpl; [|discriminate].
  destruct (id x =? 0) eqn:Hid; simpl; [|discriminate].
  destruct (action_file x) as [q|] eqn:Hfree; simpl; [discriminate|].
  destruct (name x) as [nm|] eqn:Hname; cbn; [|discriminate].
  destruct (find_first _ (Some nm)) as [found|] eqn:Hfound; cbn;
    [|discriminate].
  intros [= <- <-]. apply Z.eqb_eq in Hid. exists p, nm, found.
  now repeat split.
Qed.

Lemma add_action_success_requires_checks (p : ptr) (a : sky_action) st :
  fst (fst (sky_action_file_add_action (Some p) (Some a) st)) = 0 ->
  exists nm found,
    name a = Some nm
    /\ find_first (take (Z.to_nat (action_count (af st))) (actions (af st)))
         (Some nm) = Some found.
Proof.
  unfold sky_action_file_add_action.
  destruct (add_action_checks (Some p) (Some a) st) as [[x|] st1] eqn:E;
    [|discriminate].
  intros _. apply add_action_checks_Some in E
    as (_ & nm & found & _ & [= <-] & _ & _ & Hname & Hfound).
  eauto.
Qed.

(** X3: the call returns 0 only for a non-null registry and a detached
    action (identifier 0, no registry) whose name is non-null and is already
    the name of an action stored below [action_count]. *)
Theorem add_action_success_requires_stored_name (self : option ptr)
    (action : option sky_action) (st : state) :
  fst (fst (sky_action_file_add_action self action st)) = 0 ->
  exists (p : ptr) (a other : sky_action) (nm : bstring) (i : nat),
    self = Some p /\ action = Some a
    /\ id a = 0 /\ action_file a = None /\ name a = Some nm
    /\ Z.of_nat i < action_count (af st)
    /\ actions (af st) !! i = Some other /\ name other = Some nm.
Proof.
  unfold sky_action_file_add_action.
  destruct (add_action_checks self action st) as [[a|] st1] eqn:E;
    [|discriminate].
  intros _. apply add_action_checks_Some in E
    as (p & nm & found & -> & -> & Hid & Hfree & Hname & Hfound).
  apply find_first_Some in Hfound as (i & y & Hi & [= <-] & Hn & _).
  apply lookup_take_Some in Hi as [Hi Hlt].
  exists p, a, found, nm, i. repeat split; try assumption. lia.
Qed.

Lemma add_action_success_requires_stored_name_witness :
  exists (p : ptr) (a other : sky_action) (nm : bstring) (i : nat),
    Some 1%N = Some p /\ Some (detached [0x61]) = Some a
    /\ id a = 0 /\ action_file a = None /\ name a = Some nm
    /\ Z.of_nat i < 1
    /\ [stored 1 [0x61]] !! i = Some other /\ name other = Some nm.
Proof.
  apply (add_action_success_requires_stored_name (Some 1%N)
           (Some (detached [0x61]))
           (sample_state (registry_of [stored 1 [0x61]]) ∅ [])).
  reflexivity.
Defined.

(** The state a successful call leaves. *)
Lemma add_action_success_state (p : ptr) (a : sky_action) (st : state) :
  fst (fst (sky_action_file_add_action (Some p) (Some a) st)) = 0 ->
  let added := with_id (next_id (af st)) (with_action_file (Some p) a) in
  let st' := snd (sky_action_file_add_action (Some p) (Some a) st) in
  snd (fst (sky_action_file_add_action (Some p) (Some a) st)) = Some added
  /\ actions (af st')
     = take (Z.to_nat (int64 (action_count (af st) + 1) - 1))
         (actions (af st)) ++ [added]
  /\ action_count (af st') = int64 (action_count (af st) + 1)
  /\ table (af st') = table (af st)
  /\ fs st' = fs st /\ file st' = file st.
Proof.
  unfold sky_action_file_add_action.
  pose proof (add_action_checks_state (Some p) (Some a) st) as K.
  destruct (add_action_checks (Some p) (Some a) st) as [[x|] st1] eqn:E;
    [|discriminate].
  simpl in K. subst st1.
  apply add_action_checks_Some in E as (_ & _ & _ & _ & [= <-] & _).
  unfold next_call_ok. destruct (schedule st) as [|[] rest];
    cbn [fst snd af with_af with_schedule actions action_count table fs file];
    try discriminate; intros _; now repeat split.
Qed.

(** A successful call found the registry with at least one action. *)
Lemma add_action_success_count (p : ptr) (a : sky_action) (st : state) :
  fst (fst (sky_action_file_add_action (Some p) (Some a) st)) = 0 ->
  0 < action_count (af st).
Proof.
  intros Hok.
  destruct (add_action_success_requires_checks p a st Hok)
    as (y & found & _ & Hfound).
  destruct (Z.to_nat (action_count (af st))) eqn:E; [discriminate Hfound|].
  lia.
Qed.

(** The same while the count is within the array and below the largest
    [int64_t]: the slots below the count are kept as they are and the action
    is in the one after them, the last of the array. *)
Lemma add_action_success_slots (p : ptr) (a : sky_action) (st : state) :
  action_count (af st) <= Z.of_nat (length (actions (af st))) ->
  action_count (af st) < 2 ^ 63 - 1 ->
  fst (fst (sky_action_file_add_action (Some p) (Some a) st)) = 0 ->
  let added := with_id (next_id (af st)) (with_action_file (Some p) a) in
  let st' := snd (sky_action_file_add_action (Some p) (Some a) st) in
  snd (fst (sky_action_file_add_action (Some p) (Some a) st)) = Some added
  /\ actions (af st')
     = take (Z.to_nat (action_count (af st))) (actions (af st)) ++ [added]
  /\ action_count (af st') = action_count (af st) + 1
  /\ Z.of_nat (length (actions (af st'))) = action_count (af st')
  /\ table (af st') = table (af st)
  /\ fs st' = fs st /\ file st' = file st.
Proof.
  intros Hwf Hmax Hok.
  pose proof (add_action_success_count p a st Hok) as Hpos.
  destruct (add_action_success_state p a st Hok)
    as (Hret & Hact & Hcount & Htable & Hfs & Hfile).
  cbv zeta in *. rewrite int64_small in Hact, Hcount by lia.
  rewrite Z.add_simpl_r in Hact.
  repeat split; try assumption.
  rewrite Hact, Hcount, length_app, length_take. cbn [length]. lia.
Qed.

(** X4: when the call returns 0 on a registry whose count does not exceed
    its array, the actions in the slots below [action_count] are as they
    were and the action, linked to the registry and numbered [next_id], is
    in the slot after them, which is now the last of the array;
    [action_count] is one more and is the length of the array, the table is
    the same, and neither the disk nor the stream has changed. *)
Theorem add_action_success_appends (p : ptr) (a : sky_action) (st : state) :
  action_count (af st) <= Z.of_nat (length (actions (af st))) ->
  action_count (af st) < 2 ^ 63 - 1 ->
  fst (fst (sky_action_file_add_action (Some p) (Some a) st)) = 0 ->
  let added := with_id (next_id (af st)) (with_action_file (Some p) a) in
  let st' := snd (sky_action_file_add_action (Some p) (Some a) st) in
  snd (fst (sky_action_file_add_action (Some p) (Some a) st)) = Some added
  /\ actions (af st')
     = take (Z.to_nat (action_count (af st))) (actions (af st)) ++ [added]
  /\ action_count (af st') = action_count (af st) + 1
  /\ Z.of_nat (length (actions (af st'))) = action_count (af st')
  /\ table (af st') = table (af st)
  /\ fs st' = fs st /\ file st' = file st.
Proof. exact (add_action_success_slots p a st). Qed.

(** An array of two slots of which the count covers one: the second slot is
    the one the action goes to. *)
Lemma add_action_success_appends_witness :
  let st := with_af {| table := Some sample_table;
                       actions := [stored 1 [0x61]; stored 2 [0x62]];
                       action_count := 1 |}
              (sample_state (registry_of []) ∅ []) in
  let added := with_id (next_id (af st))
                 (with_action_file (Some 1%N) (detached [0x61])) in
  let st' := snd (sky_action_file_add_action (Some 1%N)
                    (Some (detached [0x61])) st) in
  snd (fst (sky_action_file_add_action (Some 1%N)
              (Some (detached [0x61])) st)) = Some added
  /\ actions (af st')
     = take (Z.to_nat (action_count (af st))) (actions (af st)) ++ [added]
  /\ action_count (af st') = action_count (af st) + 1
  /\ Z.of_nat (length (actions (af st'))) = action_count (af st')
  /\ table (af st') = table (af st)
  /\ fs st' = fs st /\ file st' = file st.
Proof.
  apply (add_action_success_appends 1%N (detached [0x61])
           (with_af {| table := Some sample_table;
                       actions := [stored 1 [0x61]; stored 2 [0x62]];
                       action_count := 1 |}
              (sample_state (registry_of []) ∅ [])));
    [cbn; lia | cbn; lia | reflexivity].
Defined.

(** X5: numbering goes on from the last stored action.  On a registry whose
    count is the length of its array and whose identifiers are 1 to N in
    order, N at least 1, a call that returns 0 leaves the identifiers 1 to
    N + 1 in order, with [action_count] N + 1, again the length of the
    array. *)
Theorem add_action_extends_numbering (p : ptr) (a : sky_action) (st : state) :
  action_count (af st) = Z.of_nat (length (actions (af st))) ->
  0 < action_count (af st) < 2 ^ 63 - 1 ->
  id <$> actions (af st) = seqZ 1 (action_count (af st)) ->
  fst (fst (sky_action_file_add_action (Some p) (Some a) st)) = 0 ->
  let st' := snd (sky_action_file_add_action (Some p) (Some a) st) in
  id <$> actions (af st') = seqZ 1 (action_count (af st) + 1)
  /\ action_count (af st') = action_count (af st) + 1
  /\ action_count (af st') = Z.of_nat (length (actions (af st'))).
Proof.
  intros Hwf Hn Hids Hok.
  destruct (add_action_success_state p a st Hok)
    as (_ & Hact & Hcount & _).
  assert (T : take (Z.to_nat (action_count (af st))) (actions (af st))
              = actions (af st)).
  { rewrite Hwf, Nat2Z.id. apply firstn_all. }
  cbv zeta. rewrite Hact, Hcount, int64_small, Z.add_simpl_r, T by lia.
  rewrite fmap_app, Hids, length_app, seqZ_app by lia. cbn [fmap list_fmap].
  rewrite next_id_continues by (assumption || lia).
  split; [|split; [reflexivity | simpl; lia]].
  f_equal. change (seqZ (1 + action_count (af st)) 1)
    with [0 + (1 + action_count (af st))].
  now rewrite Z.add_0_l, Z.add_comm.
Qed.

Lemma add_action_extends_numbering_witness :
  id <$> actions
           (af (snd (sky_action_file_add_action (Some 1%N)
                       (Some (detached [0x62]))
                       (sample_state
                          (registry_of [stored 1 [0x61]; stored 2 [0x62]])
                          ∅ []))))
  = seqZ 1 (2 + 1).
Proof.
  apply (add_action_extends_numbering 1%N (detached [0x62])
           (sample_state (registry_of [stored 1 [0x61]; stored 2 [0x62]])
              ∅ [])); try reflexivity.
  cbn. lia.
Defined.

Lemma find_first_app (l k : list sky_action) (nm : option bstring) :
  find_first (l ++ k) nm
  = match find_first l nm with
    | Some a => Some a
    | None => find_first k nm
    end.
Proof.
  induction l as [|x l IH]; [reflexivity|]. cbn [app find_first].
  now destruct (biseq (name x) nm =? 1).
Qed.

(** X6: a call that returns 0 changes the answer of no lookup.  On a
    registry whose count is the length of its array, looking any name up
    after the call gives the result it gave before: the added action bears a
    name that an earlier slot already bears. *)
Theorem add_action_keeps_lookups (p : ptr) (a : sky_action)
    (nm : option bstring) (st : state) :
  action_count (af st) = Z.of_nat (length (actions (af st))) ->
  action_count (af st) + 1 < 2 ^ 63 ->
  fst (fst (sky_action_file_add_action (Some p) (Some a) st)) = 0 ->
  fst (sky_action_file_find_action_by_name (Some p) nm
         (snd (sky_action_file_add_action (Some p) (Some a) st)))
  = fst (sky_action_file_find_action_by_name (Some p) nm st).
Proof.
  intros Hwf Hn Hok.
  destruct (add_action_success_state p a st Hok) as (_ & Hact & Hcount & _).
  destruct (add_action_success_requires_checks p a st Hok)
    as (y & found & Hname & Hfound).
  destruct nm as [q|]; [|reflexivity]. cbn. apply (f_equal (pair 0)).
  assert (T : take (Z.to_nat (action_count (af st))) (actions (af st))
              = actions (af st)).
  { rewrite Hwf, Nat2Z.id. apply firstn_all. }
  cbv zeta in Hact, Hcount.
  rewrite Hact, Hcount, int64_small, Z.add_simpl_r, T by lia.
  rewrite Hwf in Hfound |- *.
  replace (Z.of_nat (length (actions (af st))) + 1)
    with (Z.of_nat (length (actions (af st) ++
            [with_id (next_id (af st)) (with_action_file (Some p) a)])))
    by (rewrite length_app; simpl; lia).
  rewrite !Nat2Z.id, !firstn_all in *. rewrite find_first_app.
  destruct (find_first (actions (af st)) (Some q)) as [b|] eqn:E;
    [reflexivity|].
  cbn [find_first with_id with_action_file name]. rewrite Hname.
  destruct (biseq (Some y) (Some q) =? 1) eqn:B; [|reflexivity].
  apply biseq_1 in B as (z & [= <-] & [= <-]). congruence.
Qed.

Lemma add_action_keeps_lookups_witness :
  fst (sky_action_file_find_action_by_name (Some 1%N) (Some [0x62])
         (snd (sky_action_file_add_action (Some 1%N) (Some (detached [0x62]))
                 (sample_state
                    (registry_of [stored 1 [0x61]; stored 2 [0x62]]) ∅ []))))
  = (0, Some (stored 2 [0x62])).
Proof.
  apply (add_action_keeps_lookups 1%N (detached [0x62]) (Some [0x62])
           (sample_state (registry_of [stored 1 [0x61]; stored 2 [0x62]])
              ∅ [])); reflexivity.
Defined.

(** X7: a call that returns -1 while the allocator is able to serve the
    next request has changed nothing: the state is the one it was given and
    the action is as it was passed. *)
Theorem add_action_rejection_changes_nothing (self : option ptr)
    (action : option sky_action) (st : state) :
  fst (fst (sky_action_file_add_action self action st)) = -1 ->
  hd true (schedule st) = true ->
  sky_action_file_add_action self action st = ((-1, action), st).
Proof.
  unfold sky_action_file_add_action.
  pose proof (add_action_checks_state self action st) as K.
  destruct (add_action_checks self action st) as [[x|] st1];
    simpl in K; subst st1; [|reflexivity].
  unfold next_call_ok. destruct (schedule st) as [|[] rest]; cbn;
    discriminate.
Qed.

Lemma add_action_rejection_changes_nothing_witness :
  sky_action_file_add_action (Some 1%N) (Some (stored 7 [0x61]))
    (sample_state (registry_of [stored 1 [0x61]]) ∅ [])
  = ((-1, Some (stored 7 [0x61])),
     sample_state (registry_of [stored 1 [0x61]]) ∅ []).
Proof.
  apply (add_action_rejection_changes_nothing (Some 1%N)
           (Some (stored 7 [0x61]))
           (sample_state (registry_of [stored 1 [0x61]]) ∅ []));
    reflexivity.
Defined.

(** X8: when the checks pass and [realloc] then fails, the call returns -1
    after the fact: the action is already linked and numbered,
    [action_count] is already one more, and the registry is left without its
    array. *)
Theorem add_action_realloc_failure (p : ptr) (a other : sky_action)
    (nm : bstring) (i : nat) (rest : list bool) (st : state) :
  action_count (af st) = Z.of_nat (length (actions (af st))) ->
  action_count (af st) + 1 < 2 ^ 63 ->
  id a = 0 -> action_file a = None -> name a = Some nm ->
  actions (af st) !! i = Some other -> name other = Some nm ->
  schedule st = false :: rest ->
  let st' := snd (sky_action_file_add_action (Some p) (Some a) st) in
  fst (sky_action_file_add_action (Some p) (Some a) st)
  = (-1, Some (with_id (next_id (af st)) (with_action_file (Some p) a)))
  /\ actions (af st') = []
  /\ action_count (af st') = action_count (af st) + 1.
Proof.
  intros Hwf Hbound Hid Hfree Hname Hin Hother Hs.
  apply list_elem_of_lookup_2 in Hin.
  unfold sky_action_file_add_action.
  rewrite (add_action_checks_pass_on_duplicate p a other nm st) by assumption.
  unfold next_call_ok. rewrite Hs. cbn.
  repeat split. apply int64_small. lia.
Qed.

Lemma add_action_realloc_failure_witness :
  fst (sky_action_file_add_action (Some 1%N) (Some (detached [0x61]))
         (with_schedule [false]
            (sample_state (registry_of [stored 1 [0x61]]) ∅ [])))
  = (-1, Some (stored 2 [0x61]))
  /\ action_count
       (af (snd (sky_action_file_add_action (Some 1%N)
                   (Some (detached [0x61]))
                   (with_schedule [false]
                      (sample_state (registry_of [stored 1 [0x61]]) ∅ [])))))
     = 1 + 1.
Proof.
  pose proof (add_action_realloc_failure 1%N (detached [0x61])
                (stored 1 [0x61]) [0x61] 0%nat []
                (with_schedule [false]
                   (sample_state (registry_of [stored 1 [0x61]]) ∅ []))
                eq_refl eq_refl eq_refl eq_refl eq_refl eq_refl eq_refl
                eq_refl) as (H1 & _ & H3).
  split; [exact H1 | exact H3].
Defined.

(** *** Successive calls *)

(** One call that returns 0, on a registry whose count is the length of its
    array and whose identifiers are 1 to N in order. *)
Lemma add_action_numbering_step (p : ptr) (a : sky_action) (st : state) :
  action_count (af st) = Z.of_nat (length (actions (af st))) ->
  id <$> actions (af st) = seqZ 1 (action_count (af st)) ->
  action_count (af st) + 1 < 2 ^ 63 ->
  fst (fst (sky_action_file_add_action (Some p) (Some a) st)) = 0 ->
  let st' := snd (sky_action_file_add_action (Some p) (Some a) st) in
  action_count (af st') = Z.of_nat (length (actions (af st')))
  /\ id <$> actions (af st') = seqZ 1 (action_count (af st'))
  /\ action_count (af st') = action_count (af st) + 1
  /\ name <$> actions (af st') = (name <$> actions (af st)) ++ [name a].
Proof.
  intros Hwf Hids Hmax Hok.
  pose proof (add_action_success_count p a st Hok) as Hpos.
  destruct (add_action_success_slots p a st) as (_ & Hact & Hcount & Hlen & _);
    [lia | lia | exact Hok |].
  cbv zeta in *.
  assert (T : take (Z.to_nat (action_count (af st))) (actions (af st))
              = actions (af st)).
  { rewrite Hwf, Nat2Z.id. apply firstn_all. }
  rewrite T in Hact. rewrite Hact, Hcount, !fmap_app.
  split; [now rewrite <- Hcount, <- Hlen, Hact|].
  split; [|split; [reflexivity|]].
  - rewrite Hids, seqZ_app by lia. cbn [fmap list_fmap id with_id].
    rewrite next_id_continues by (assumption || lia).
    f_equal. change (seqZ (1 + action_count (af st)) 1)
      with [0 + (1 + action_count (af st))].
    now rewrite Z.add_0_l, Z.add_comm.
  - reflexivity.
Qed.



(** ** Reading a string, continued *)

Lemma all_bytes_Forall (l : list Z) :
  all_bytes l = true -> Forall (fun b => 0 <= b) l.
Proof.
  unfold all_bytes. intros H. apply Forall_forall. intros b Hb.
  apply list_elem_of_In in Hb.
  apply (proj1 (forallb_forall _ _) H) in Hb. unfold is_byte in Hb.
  apply andb_true_iff in Hb as [Hb _]. now apply Z.leb_le.
Qed.

Lemma be_value_from_nonneg (bs : list Z) (acc : Z) :
  0 <= acc -> Forall (fun b => 0 <= b) bs ->
  0 <= fold_left (fun acc b => acc * 256 + b) bs acc.
Proof.
  revert acc. induction bs as [|b bs IH]; intros acc Hacc H; [exact Hacc|].
  apply Forall_cons in H as [Hb H]. cbn [fold_left]. apply IH; [lia | exact H].
Qed.

(** On a stream of bytes the raw header never announces a negative
    length. *)
Lemma minipack_fread_raw_nonneg (st st1 : state) (len sz : Z) :
  all_bytes (data (file st)) = true ->
  minipack_fread_raw st = (Some (len, sz), st1) -> 0 <= len.
Proof.
  intros Hbytes. apply all_bytes_Forall in Hbytes.
  assert (Hsub : forall n m, Forall (fun b => 0 <= b)
                               (take n (drop m (data (file st))))).
  { intros n m. now apply Forall_take, Forall_drop. }
  unfold minipack_fread_raw, bind, fread, fread_field, ret.
  cbn [fst snd file data pos with_file].
  pose proof (Hsub (Z.to_nat (1 * 1)) (pos (file st))) as Htag.
  destruct (take (Z.to_nat (1 * 1)) (drop (pos (file st)) (data (file st))))
    as [|t [|t' tag]]; try (intros [= <- _ _]; lia).
  apply Forall_cons in Htag as [Ht _].
  destruct ((160 <=? t) && (t <=? 191)).
  { intros [= <- _ _]. apply Z.land_nonneg. now left. }
  destruct (t =? 218).
  { unfold bind, fread. cbn [fst snd file data pos with_file].
    match goal with |- context [be_value ?bs] =>
      assert (0 <= be_value bs)
        by (apply be_value_from_nonneg; [lia | apply Hsub])
    end.
    match goal with |- context [if ?c then _ else _] => destruct c end;
      intros [= <- _ _]; first [assumption | lia]. }
  destruct (t =? 219).
  { unfold bind, fread. cbn [fst snd file data pos with_file].
    match goal with |- context [be_value ?bs] =>
      assert (0 <= be_value bs)
        by (apply be_value_from_nonneg; [lia | apply Hsub])
    end.
    match goal with |- context [if ?c then _ else _] => destruct c end;
      intros [= <- _ _]; first [assumption | lia]. }
  intros [= <- _ _]. lia.
Qed.

Lemma next_call_ok_file (st st' : state) (ok : bool) :
  next_call_ok st = (Some ok, st') ->
  file st' = file st /\ noise st' = noise st /\ overrun st' = overrun st.
Proof.
  unfold next_call_ok. destruct (schedule st) as [|b rest];
    intros [= _ <-]; now repeat split.
Qed.

Lemma malloc_inv (n : Z) (st st' : state) (buf : list Z) :
  malloc n st = (Some (Some buf), st') ->
  length buf = Z.to_nat n /\ file st' = file st /\ overrun st' = overrun st.
Proof.
  unfold malloc. intros H.
  apply bind_inv_Some in H as (ok & st1 & E & H).
  apply next_call_ok_file in E as (Ef & _ & Eo).
  apply bind_inv_Some in H as (st0 & st2 & E2 & H).
  injection E2 as <- <-. destruct ok; [|discriminate H].
  injection H as <- <-. split; [|now split].
  unfold garbage. now rewrite length_map, length_seq.
Qed.

Lemma blk2bstr_inv (blk : list Z) (len : Z) (st st' : state) (s : list Z) :
  blk2bstr blk len st = (Some (Some s), st') ->
  s = take (Z.to_nat len) blk /\ file st' = file st
  /\ overrun st' = overrun st.
Proof.
  unfold blk2bstr. intros H.
  apply bind_inv_Some in H as (ok & st1 & E & H).
  apply next_call_ok_file in E as (Ef & _ & Eo).
  destruct ok; [|discriminate H]. injection H as <- <-. now repeat split.
Qed.

Lemma minipack_fread_raw_keeps_overrun : keeps overrun minipack_fread_raw.
Proof.
  unfold minipack_fread_raw, fread_field.
  repeat keeps_step; now intros ?.
Qed.

(** What a call that returns 0 has done: the header was read, [fread] was
    asked for [len] items and delivered another number of them, the stream
    has moved past every byte [fread] delivered, and the string is cut from
    the buffer those bytes were stored in. *)
Lemma fread_bstring_success_inv (st : state) :
  fst (fst (sky_minipack_fread_bstring st)) = 0 ->
  exists len sz st1 (buffer : list Z),
    minipack_fread_raw st = (Some (len, sz), st1) /\ sz <> 0
    /\ length buffer = Z.to_nat ((len + 1) mod 2 ^ 32)
    /\ let got := take (Z.to_nat (sizeof_char_ptr * len)) (remaining st1) in
       Z.of_nat (length got) / sizeof_char_ptr <> len
       /\ file (snd (sky_minipack_fread_bstring st))
          = {| data := data (file st1);
               pos := (pos (file st1) + length got)%nat |}
       /\ snd (fst (sky_minipack_fread_bstring st))
          = Some (take (Z.to_nat len)
                    (take (length buffer) (got ++ drop (length got) buffer)))
       /\ overrun (snd (sky_minipack_fread_bstring st))
          = overrun st || (length buffer <=? Z.to_nat len)%nat
            || (length buffer <? length got)%nat.
Proof.
  unfold sky_minipack_fread_bstring, or_else.
  destruct (bind fread_bstring_body _ st) as [[r|] st'] eqn:H;
    [|discriminate]. intros _.
  apply bind_inv_Some in H as (str & st'' & H & R). injection R as <- <-.
  unfold fread_bstring_body in H.
  apply bind_inv_Some in H as ([len sz] & st1 & Hhdr & H).
  apply bind_inv_Some in H as ([] & st1' & C & H).
  apply check_inv in C as [Hsz ->]. apply negb_true_iff, Z.eqb_neq in Hsz.
  apply bind_inv_Some in H as (bo & st2 & Hm & H).
  apply bind_inv_Some in H as (buf & st2' & C & H).
  injection C as -> <-. apply malloc_inv in Hm as (Hlen & Hf2 & Ho2).
  apply bind_inv_Some in H as ([] & st2' & Hterm & H).
  injection Hterm as <-.
  apply bind_inv_Some in H as ([items got] & st3 & Hr & H).
  unfold fread in Hr. injection Hr as <- <- <-.
  apply bind_inv_Some in H as ([] & st3' & Hmark & H).
  injection Hmark as <-.
  apply bind_inv_Some in H as ([] & st3' & C & H).
  apply check_inv in C as [Hitems ->].
  apply negb_true_iff, Z.eqb_neq in Hitems.
  apply bind_inv_Some in H as (so & st4 & Hb & H).
  injection H as -> <-. apply blk2bstr_inv in Hb as (-> & Hf4 & Ho4).
  exists len, sz, st1, (<[Z.to_nat len := 0]> buf).
  split; [exact Hhdr|]. split; [exact Hsz|].
  split; [now rewrite length_insert|].
  cbn [fst snd]. rewrite Hf4, Ho4.
  cbn [file overrun with_file mark_overrun] in *. rewrite Hf2, Ho2 in *.
  rewrite <- (keeps_run overrun _ _ _ _ minipack_fread_raw_keeps_overrun Hhdr).
  fold (remaining st1) in *. rewrite length_insert. now repeat split.
Qed.

(** On a stream of bytes a call that returns 0 has read to the end. *)
Lemma fread_bstring_success_at_end (st : state) :
  all_bytes (data (file st)) = true ->
  fst (fst (sky_minipack_fread_bstring st)) = 0 ->
  remaining (snd (sky_minipack_fread_bstring st)) = [].
Proof.
  intros Hbytes Hok.
  destruct (fread_bstring_success_inv st Hok)
    as (len & sz & st1 & buffer & Hhdr & Hsz & _ & Hitems & Hfile & _ & _).
  pose proof (minipack_fread_raw_nonneg st st1 len sz Hbytes Hhdr) as Hlen.
  cbv zeta in Hitems, Hfile. rewrite length_take in Hitems.
  rewrite (fread_items_eq_iff _ len Hlen) in Hitems.
  unfold remaining at 1. rewrite Hfile. cbn [data pos].
  rewrite <- drop_drop. fold (remaining st1).
  rewrite take_ge by lia. now apply drop_all.
Qed.

(** X9: a call that returns 0 leaves nothing to read.  On a stream of bytes
    the call succeeds only when [fread] ran into the end of the stream, so
    after it the position is the end of the stream, whatever followed the
    string. *)
Theorem fread_bstring_success_drains_stream (st : state) :
  all_bytes (data (file st)) = true ->
  fst (fst (sky_minipack_fread_bstring st)) = 0 ->
  remaining (snd (sky_minipack_fread_bstring st)) = [].
Proof. exact (fread_bstring_success_at_end st). Qed.

Lemma fread_bstring_success_drains_stream_witness :
  remaining (snd (sky_minipack_fread_bstring
                    (sample_state (registry_of []) ∅
                       [0xa2; 0x61; 0x62; 0x01; 0xa1; 0x63]))) = [].
Proof.
  apply (fread_bstring_success_drains_stream
           (sample_state (registry_of []) ∅
              [0xa2; 0x61; 0x62; 0x01; 0xa1; 0x63])); reflexivity.
Defined.

(** With memory available, a header that decodes and fewer bytes left
    than [fread] is asked for, the call returns 0. *)
Lemma fread_bstring_accepts (st st1 : state) (len sz : Z) :
  minipack_fread_raw st = (Some (len, sz), st1) -> sz <> 0 -> 0 <= len ->
  schedule st1 = [] ->
  Z.of_nat (length (remaining st1)) < sizeof_char_ptr * len ->
  fst (fst (sky_minipack_fread_bstring st)) = 0.
Proof.
  intros Hhdr Hsz Hlen Hs Hshort.
  unfold sky_minipack_fread_bstring, or_else, fread_bstring_body, bind.
  rewrite Hhdr. unfold check at 1.
  destruct (sz =? 0) eqn:E; [apply Z.eqb_eq in E; contradiction|].
  cbn [negb]. cbv iota.
  unfold malloc, bind, next_call_ok, gets, ret. rewrite Hs.
  unfold check_mem at 1. unfold modify at 1. unfold fread.
  cbv beta iota zeta. cbn [file data pos mark_overrun].
  rewrite length_take. fold (remaining st1). unfold modify, check.
  destruct (_ =? len) eqn:E2.
  { apply Z.eqb_eq, fread_items_eq_iff in E2; [lia | exact Hlen]. }
  cbn [negb]. cbv iota.
  unfold blk2bstr, bind, next_call_ok, ret, check_mem.
  cbn [schedule with_file mark_overrun]. now rewrite Hs.
Qed.

(** The advance of the stream over a header that decodes. *)
Lemma minipack_fread_raw_advances (st st1 : state) (len sz : Z) :
  minipack_fread_raw st = (Some (len, sz), st1) -> sz <> 0 ->
  (pos (file st) < pos (file st1))%nat /\ data (file st1) = data (file st).
Proof.
  unfold minipack_fread_raw, bind, fread, fread_field, ret.
  cbn [fst snd file data pos with_file].
  destruct (take (Z.to_nat (1 * 1)) (drop (pos (file st)) (data (file st))))
    as [|t [|t' tag]] eqn:T.
  1,3: intros [= _ <- _] Hsz; now contradiction Hsz.
  cbn [length].
  destruct ((160 <=? t) && (t <=? 191)); [|destruct (t =? 218);
    [|destruct (t =? 219); [|intros [= _ <- _] Hsz; now contradiction Hsz]]];
    unfold bind, fread; intros E _; apply (f_equal snd) in E;
    cbn [snd] in E; rewrite <- E; cbn [fst snd file data pos with_file];
    (split; [lia | reflexivity]).
Qed.

(** The string read when what is left in the stream fits the buffer: the
    [len] bytes of the string and at most one more. *)
Lemma fread_bstring_window (st st1 : state) (len sz : Z) :
  minipack_fread_raw st = (Some (len, sz), st1) -> sz <> 0 ->
  1 <= len < 2 ^ 32 - 1 -> schedule st1 = [] ->
  len <= Z.of_nat (length (remaining st1)) <= len + 1 ->
  fst (sky_minipack_fread_bstring st)
  = (0, Some (take (Z.to_nat len) (remaining st1)))
  /\ remaining (snd (sky_minipack_fread_bstring st)) = []
  /\ overrun (snd (sky_minipack_fread_bstring st)) = overrun st.
Proof.
  intros Hhdr Hsz Hlen Hs Hwin.
  assert (Hshort : Z.of_nat (length (remaining st1)) < sizeof_char_ptr * len)
    by (unfold sizeof_char_ptr; lia).
  assert (Hok : fst (fst (sky_minipack_fread_bstring st)) = 0)
    by (apply (fread_bstring_accepts st st1 len sz); tauto || lia).
  destruct (fread_bstring_success_inv st Hok)
    as (len' & sz' & st1' & buffer & Hhdr' & _ & Hbuf & _ & Hfile & Hstr
        & Hover).
  rewrite Hhdr in Hhdr'. injection Hhdr' as <- <- <-.
  cbv zeta in Hfile, Hstr, Hover.
  rewrite Z.mod_small in Hbuf by lia.
  rewrite (take_ge (remaining st1)) in Hfile, Hstr, Hover by lia.
  split; [|split].
  - destruct (sky_minipack_fread_bstring st) as [[rc str] st'].
    cbn [fst snd] in *. subst rc str. f_equal. f_equal.
    rewrite take_take, Hbuf, Nat.min_l, take_app_le by lia. reflexivity.
  - unfold remaining at 1. rewrite Hfile. cbn [data pos].
    rewrite <- drop_drop. fold (remaining st1). now apply drop_all.
  - rewrite Hover.
    destruct (Nat.ltb_spec (length buffer) (length (remaining st1)));
      [lia|].
    destruct (Nat.leb_spec (length buffer) (Z.to_nat len)); [lia|].
    now rewrite !orb_false_r.
Qed.



(** *** A payload cut short *)

(** C4, code defect: a short read is not a failure and nothing is rolled
    back.  After a header that decodes to [len], with memory available, when
    fewer than [len] bytes are left in the stream, the call returns 0 and
    leaves the stream at its end, past the position it was called at; every
    byte [fread] delivered fits the buffer, so the run is a defined one. *)
Theorem fread_bstring_short_read_is_not_rolled_back (st st1 : state)
    (len sz : Z) :
  minipack_fread_raw st = (Some (len, sz), st1) -> sz <> 0 ->
  0 <= len < 2 ^ 32 - 1 -> schedule st1 = [] ->
  Z.of_nat (length (remaining st1)) < len ->
  fst (fst (sky_minipack_fread_bstring st)) = 0
  /\ (pos (file st) < pos (file (snd (sky_minipack_fread_bstring st))))%nat
  /\ remaining (snd (sky_minipack_fread_bstring st)) = []
  /\ overrun (snd (sky_minipack_fread_bstring st)) = overrun st.
Proof.
  intros Hhdr Hsz Hlen Hs Hcut.
  assert (Hok : fst (fst (sky_minipack_fread_bstring st)) = 0).
  { apply (fread_bstring_accepts st st1 len sz); try tauto; try lia.
    unfold sizeof_char_ptr. lia. }
  destruct (fread_bstring_success_inv st Hok)
    as (len' & sz' & st1' & buffer & Hhdr' & _ & Hbuf & _ & Hfile & _
        & Hover).
  rewrite Hhdr in Hhdr'. injection Hhdr' as <- <- <-.
  destruct (minipack_fread_raw_advances st st1 len sz Hhdr Hsz) as [Hadv _].
  cbv zeta in Hfile, Hover. rewrite Z.mod_small in Hbuf by lia.
  rewrite (take_ge (remaining st1)) in Hfile, Hover
    by (unfold sizeof_char_ptr; lia).
  split; [exact Hok|]. split; [|split].
  - rewrite Hfile. cbn [pos]. lia.
  - unfold remaining at 1. rewrite Hfile. cbn [data pos].
    rewrite <- drop_drop. fold (remaining st1). now apply drop_all.
  - rewrite Hover.
    destruct (Nat.ltb_spec (length buffer) (length (remaining st1)));
      [lia|].
    destruct (Nat.leb_spec (length buffer) (Z.to_nat len)); [lia|].
    now rewrite !orb_false_r.
Qed.

(** Two bytes announced, one present. *)
Lemma fread_bstring_short_read_is_not_rolled_back_witness :
  let st := sample_state (registry_of []) ∅ [0xa2; 0x61] in
  fst (fst (sky_minipack_fread_bstring st)) = 0
  /\ (pos (file st) < pos (file (snd (sky_minipack_fread_bstring st))))%nat
  /\ remaining (snd (sky_minipack_fread_bstring st)) = []
  /\ overrun (snd (sky_minipack_fread_bstring st)) = overrun st.
Proof.
  apply (fread_bstring_short_read_is_not_rolled_back
           (sample_state (registry_of []) ∅ [0xa2; 0x61])
           (with_file {| data := [0xa2; 0x61]; pos := 1 |}
              (sample_state (registry_of []) ∅ [0xa2; 0x61]))
           2 1); [reflexivity | lia | lia | reflexivity | cbn; lia].
Defined.

(** *** A payload followed by more *)

Lemma bind_run {A B} (m : M A) (k : A -> M B) st a st1 :
  m st = (Some a, st1) -> bind m k st = k a st1.
Proof. intros E. unfold bind. now rewrite E. Qed.

Lemma malloc_ok (n : Z) (st : state) :
  hd true (schedule st) = true ->
  exists buf st',
    malloc n st = (Some (Some buf), st')
    /\ length buf = Z.to_nat n /\ file st' = file st
    /\ overrun st' = overrun st.
Proof.
  intros Hs. unfold malloc, bind, next_call_ok, gets, ret.
  destruct (schedule st) as [|[] rest]; [| |discriminate Hs];
    do 2 eexists; (split; [reflexivity|]);
    unfold garbage; rewrite length_map, length_seq; now repeat split.
Qed.

Lemma blk2bstr_keeps_overrun blk len : keeps overrun (blk2bstr blk len).
Proof.
  unfold blk2bstr. apply keeps_bind; [|intros; apply keeps_ret].
  intros st. unfold next_call_ok. now destruct (schedule st).
Qed.

(** X25: a read with more in the stream than the buffer holds overruns the
    buffer.  After a header that decodes to [len], at least 1, and a
    [malloc] that succeeds, when more than [len + 1] bytes are left in the
    stream [fread] stores bytes past the end of the buffer, whatever the
    call then returns. *)
Theorem fread_bstring_overruns_buffer (st st1 : state) (len sz : Z) :
  minipack_fread_raw st = (Some (len, sz), st1) -> sz <> 0 ->
  1 <= len < 2 ^ 32 - 1 -> hd true (schedule st1) = true ->
  len + 1 < Z.of_nat (length (remaining st1)) ->
  overrun (snd (sky_minipack_fread_bstring st)) = true.
Proof.
  intros Hhdr Hsz Hlen Hs Hmore.
  assert (B : overrun (snd (fread_bstring_body st)) = true).
  { unfold fread_bstring_body.
    rewrite (bind_run _ _ _ _ _ Hhdr). cbv beta iota.
    rewrite (bind_run _ _ st1 tt st1)
      by (unfold check; now destruct (sz =? 0) eqn:E;
          [apply Z.eqb_eq in E|]).
    destruct (malloc_ok ((len + 1) mod 2 ^ 32) st1 Hs)
      as (buf & st2 & Hm & Hbuf & Hf & _).
    rewrite (bind_run _ _ _ _ _ Hm).
    rewrite (bind_run (check_mem (Some buf)) _ st2 buf st2 eq_refl).
    unfold bind at 1, modify at 1.
    unfold bind at 1, fread at 1. cbv beta iota zeta.
    unfold bind at 1, modify at 1.
    match goal with
    | |- overrun (snd (bind ?c ?k ?x)) = true =>
        assert (K : keeps overrun (bind c k))
          by (apply keeps_bind; [apply keeps_check|]; intros _;
              apply keeps_bind; [apply blk2bstr_keeps_overrun|];
              intros ?; apply keeps_check_mem);
        rewrite (K x)
    end.
    cbn [overrun mark_overrun file data pos with_file]. rewrite Hf.
    fold (remaining st1).
    rewrite length_insert, length_take, Hbuf, Z.mod_small by lia.
    destruct (Nat.ltb_spec (Z.to_nat (len + 1))
                (Nat.min (Z.to_nat (sizeof_char_ptr * len))
                   (length (remaining st1)))) as [_|Hge];
      [apply orb_true_r|]. unfold sizeof_char_ptr in Hge. lia. }
  unfold sky_minipack_fread_bstring, or_else, bind.
  destruct (fread_bstring_body st) as [[str|] x]; exact B.
Qed.

(** A string of one byte followed by two more bytes. *)
Lemma fread_bstring_overruns_buffer_witness :
  overrun (snd (sky_minipack_fread_bstring
                  (sample_state (registry_of []) ∅
                     [0xa1; 0x61; 0x62; 0x63]))) = true.
Proof.
  apply (fread_bstring_overruns_buffer
           (sample_state (registry_of []) ∅ [0xa1; 0x61; 0x62; 0x63])
           (with_file {| data := [0xa1; 0x61; 0x62; 0x63]; pos := 1 |}
              (sample_state (registry_of []) ∅ [0xa1; 0x61; 0x62; 0x63]))
           1 1); [reflexivity | lia | lia | reflexivity | cbn; lia].
Defined.

(** ** Loading, continued *)

(** Splits [keeps f m] for an observation [f] that ignores the stream and
    the schedule, down to the calls of the C library. *)
Ltac frame_step :=
  match goal with
  | |- keeps _ next_call_ok =>
      let st := fresh "st" in
      intros st; unfold next_call_ok; now destruct (schedule st)
  | |- keeps _ (fread _ _) => now intros ?
  | |- keeps _ (malloc _) => unfold malloc
  | |- keeps _ (fread_field _) => unfold fread_field
  | |- keeps _ (fread_signed_field _) => unfold fread_signed_field
  | |- keeps _ minipack_fread_raw => unfold minipack_fread_raw
  | |- keeps _ minipack_fread_int => unfold minipack_fread_int
  | |- keeps _ minipack_fread_array => unfold minipack_fread_array
  | |- keeps _ sky_action_create => unfold sky_action_create
  | |- keeps _ (blk2bstr _ _) => unfold blk2bstr
  | |- keeps _ (fopen_r _) => unfold fopen_r
  | |- keeps _ (sky_file_exists _) => unfold sky_file_exists
  | _ => keeps_step
  end.

Ltac frame := repeat frame_step.

Lemma sky_minipack_fread_bstring_keeps_fs st :
  fs (snd (sky_minipack_fread_bstring st)) = fs st.
Proof.
  unfold sky_minipack_fread_bstring. apply or_else_keeps; [|reflexivity].
  unfold fread_bstring_body. frame.
Qed.

Lemma load_actions_keeps_fs self n acc : keeps fs (load_actions self n acc).
Proof.
  revert acc. induction n as [|n IH]; intros acc; cbn [load_actions];
    [apply keeps_ret|].
  frame; [|apply IH].
  apply keeps_call, sky_minipack_fread_bstring_keeps_fs.
Qed.

Lemma load_file_keeps_fs self p : keeps fs (load_file self p).
Proof. unfold load_file. frame. apply load_actions_keeps_fs. Qed.

Lemma sky_action_file_get_path_keeps_fs self :
  keeps fs (call (sky_action_file_get_path self)).
Proof.
  apply keeps_call. intros st. now rewrite sky_action_file_get_path_keeps.
Qed.

(** X11: loading never writes.  Whatever the registry, the pointer and the
    outcome, the disk after [sky_action_file_load] is the disk before. *)
Theorem load_leaves_disk_unchanged (self : option ptr) (st : state) :
  fs (snd (sky_action_file_load self st)) = fs st.
Proof.
  unfold sky_action_file_load. apply or_else_keeps; [|reflexivity].
  unfold load_body, load_after_unload.
  apply keeps_bind; [apply keeps_bind|intros; apply keeps_ret].
  - apply keeps_check.
  - intros _. apply keeps_bind.
    + apply keeps_call. intros st0. unfold sky_action_file_unload.
      now destruct self.
    + intros rc. frame.
      * apply sky_action_file_get_path_keeps_fs.
      * apply load_file_keeps_fs.
Qed.

(** The loop fills [n] slots, each linked to the registry. *)
Lemma load_actions_Some self n acc st l st' :
  load_actions self n acc st = (Some l, st') ->
  exists new,
    l = acc ++ new /\ length new = n
    /\ Forall (fun a => action_file a = self) new.
Proof.
  revert acc st. induction n as [|n IH]; intros acc st H.
  - injection H as <- <-. exists []. now rewrite app_nil_r.
  - cbn [load_actions] in H.
    apply bind_inv_Some in H as (o & s1 & _ & H).
    apply bind_inv_Some in H as (created & s2 & _ & H).
    apply bind_inv_Some in H as ([v sz] & s3 & _ & H).
    apply bind_inv_Some in H as ([] & s4 & _ & H).
    apply bind_inv_Some in H as ([rc nm] & s5 & _ & H).
    apply bind_inv_Some in H as ([] & s6 & _ & H).
    apply IH in H as (new & -> & Hlen & Hall).
    eexists (_ :: new). rewrite <- app_assoc. split; [reflexivity|].
    split; [simpl; lia|]. now constructor.
Qed.

(** What a successful load has stored. *)
Lemma load_success_inv (p : ptr) (st : state) :
  fst (sky_action_file_load (Some p) st) = 0 ->
  let st0 := with_af (empty_action_file (table (af st))) st in
  exists loaded count st1,
    af (snd (sky_action_file_load (Some p) st))
    = {| table := table (af st); actions := loaded; action_count := count |}
    /\ ((loaded = [] /\ count = 0)
        \/ load_file (Some p)
             (snd (fst (sky_action_file_get_path (Some p) st0))) st0
           = (Some (loaded, count), st1)).
Proof.
  unfold sky_action_file_load, or_else, bind. rewrite load_body_unloads.
  set (st0 := with_af (empty_action_file (table (af st))) st).
  destruct (load_after_unload (Some p) st0) as [[[]|] st'] eqn:H;
    [|discriminate]. intros _. cbn [fst snd].
  unfold load_after_unload in H.
  apply bind_inv_Some in H as ([rc q] & s1 & E1 & H).
  assert (s1 = st0 /\ q = snd (fst (sky_action_file_get_path (Some p) st0)))
    as [-> ->].
  { unfold call in E1.
    pose proof (sky_action_file_get_path_keeps (Some p) st0) as K.
    destruct (sky_action_file_get_path (Some p) st0) as [[rc' q'] s].
    injection E1 as _ <- <-. now split. }
  apply bind_inv_Some in H as ([] & s2 & C & H). apply check_inv in C as [_ ->].
  apply bind_inv_Some in H as (ex & s2 & E2 & H). injection E2 as _ <-.
  apply bind_inv_Some in H as ([loaded count] & s3 & E3 & H).
  injection H as <-. exists loaded, count, s3. cbn [af with_af]. split.
  - f_equal. destruct ex.
    + apply (keeps_run af _ _ _ _ (load_file_keeps_af _ _)) in E3.
      now rewrite E3.
    + now injection E3 as _ _ <-.
  - destruct ex; [right; eauto | left]. now injection E3 as <- <- _.
Qed.

(** X12: after a load that returns 0 the array holds [action_count]
    actions, every one of them linked to the registry that was loaded, and
    the registry has the table it had. *)
Theorem load_success_fills_registry (p : ptr) (st : state) :
  fst (sky_action_file_load (Some p) st) = 0 ->
  let reg := af (snd (sky_action_file_load (Some p) st)) in
  length (actions reg) = Z.to_nat (action_count reg)
  /\ Forall (fun a => action_file a = Some p) (actions reg)
  /\ table reg = table (af st).
Proof.
  intros Hok. destruct (load_success_inv p st Hok)
    as (loaded & count & st1 & -> & [[-> ->]|H]); cbn.
  - now repeat split.
  - unfold load_file in H.
    apply bind_inv_Some in H as (f & s1 & _ & H).
    apply bind_inv_Some in H as (? & s2 & _ & H).
    apply bind_inv_Some in H as ([c sz] & s3 & _ & H).
    apply bind_inv_Some in H as ([] & s4 & _ & H).
    apply bind_inv_Some in H as (arr & s5 & _ & H).
    apply bind_inv_Some in H as ([] & s6 & _ & H).
    apply bind_inv_Some in H as (l & s7 & E & H).
    injection H as <- <- _.
    apply load_actions_Some in E as (new & -> & Hlen & Hall).
    now repeat split.
Qed.

Lemma load_success_fills_registry_witness :
  let reg :=
    af (snd (sky_action_file_load (Some 1%N)
               (sample_state (registry_of [stored 9 [0x62]])
                  {[ "/db/users/actions"%string
                     := [0x91; 0x05; 0xa1; 0x61] ]} []))) in
  actions reg = [stored 5 [0x61]]
  /\ (length (actions reg) = Z.to_nat (action_count reg)
      /\ Forall (fun a => action_file a = Some 1%N) (actions reg)
      /\ table reg = Some sample_table).
Proof.
  split; [reflexivity|].
  apply (load_success_fills_registry 1%N
           (sample_state (registry_of [stored 9 [0x62]])
              {[ "/db/users/actions"%string := [0x91; 0x05; 0xa1; 0x61] ]}
              [])).
  reflexivity.
Defined.

Lemma always_fails_bind {A B} (P : state -> Prop) (Q : A -> state -> Prop)
    (m : M A) (k : A -> M B) :
  (forall st a st', P st -> m st = (Some a, st') -> Q a st') ->
  (forall a, always_fails (Q a) (k a)) ->
  always_fails P (bind m k).
Proof.
  intros Hm Hk st HP. unfold bind.
  destruct (m st) as [[a|] st1] eqn:E; [|reflexivity].
  apply (Hk a). now apply (Hm st).
Qed.

Lemma sky_action_create_keeps_data : keeps stream_data sky_action_create.
Proof. frame. Qed.

Lemma minipack_fread_int_keeps_data : keeps stream_data minipack_fread_int.
Proof. frame. Qed.

Lemma minipack_fread_array_keeps_data :
  keeps stream_data minipack_fread_array.
Proof. frame. Qed.

Lemma malloc_keeps_stream_data n : keeps stream_data (malloc n).
Proof. frame. Qed.

(** At the end of the stream no integer can be read. *)
Lemma minipack_fread_int_at_end : reads [] minipack_fread_int (0, 0) [].
Proof.
  intros st H. unfold minipack_fread_int, bind, fread.
  fold (remaining st). rewrite H. cbn. eexists. split; [reflexivity|].
  unfold remaining in *. cbn. now rewrite Nat.add_0_r.
Qed.

Lemma load_actions_at_end self n acc :
  dooms [] (load_actions self (S n) acc).
Proof.
  cbn [load_actions].
  apply dooms_bind_keeps; [apply sky_action_create_keeps_remaining|].
  intros o. apply dooms_bind_keeps; [apply keeps_check_mem|]. intros a.
  eapply dooms_bind_reads; [apply minipack_fread_int_at_end|].
  cbv beta iota zeta. intros st _. reflexivity.
Qed.

(** The loop never gets through two iterations: the first string, when it
    is accepted, takes the rest of the stream with it. *)
Lemma load_actions_two_fail self n acc :
  always_fails (fun st => all_bytes (data (file st)) = true)
    (load_actions self (S (S n)) acc).
Proof.
  set (bytes := fun st : state => all_bytes (data (file st)) = true).
  assert (Hkeep : forall A (m : M A), keeps stream_data m ->
            forall st (a : A) st', bytes st -> m st = (Some a, st') ->
            bytes st').
  { intros A m K st a st' Hb E. unfold bytes in *.
    pose proof (keeps_run stream_data m st (Some a) st' K E) as D.
    unfold stream_data in D. now rewrite D. }
  cbn [load_actions].
  apply always_fails_bind with (Q := fun _ => bytes);
    [apply Hkeep, sky_action_create_keeps_data|]. intros o.
  apply always_fails_bind with (Q := fun _ => bytes);
    [apply Hkeep, keeps_check_mem|]. intros a.
  apply always_fails_bind with (Q := fun _ => bytes);
    [apply Hkeep, minipack_fread_int_keeps_data|]. intros [v sz].
  cbv zeta.
  apply always_fails_bind with (Q := fun _ => bytes);
    [apply Hkeep, keeps_check|]. intros _.
  apply always_fails_bind
    with (Q := fun r st' => fst r = 0 -> remaining st' = []).
  { intros st [rc nm] st' Hb E Hrc. unfold call in E.
    pose proof (fread_bstring_success_at_end st Hb) as D.
    destruct (sky_minipack_fread_bstring st) as [[rc' nm'] s].
    injection E as <- <- <-. now apply D. }
  intros [rc nm].
  apply always_fails_bind with (Q := fun _ st' => remaining st' = []).
  { intros st [] st' Hrem C. apply check_inv in C as [C ->].
    apply Hrem, Z.eqb_eq, C. }
  intros _ st Hrem. now apply load_actions_at_end.
Qed.

(** A file of bytes that loads announces at most one action. *)
Lemma load_file_at_most_one self (p : string) (content : list Z) st
    loaded count st' :
  fs st !! p = Some content -> all_bytes content = true ->
  load_file self (Some p) st = (Some (loaded, count), st') ->
  count <= 1.
Proof.
  intros Hfile Hbytes H. unfold load_file in H.
  apply bind_inv_Some in H as (f & s1 & Ef & H).
  apply bind_inv_Some in H as ([] & s1' & C & H). injection C as -> <-.
  assert (Hb1 : all_bytes (data (file s1)) = true).
  { destruct (fopen_r_opens p content st Hfile)
      as [(s & E)|(s & E & Hrem)]; rewrite E in Ef; [discriminate|].
    injection Ef as <-. revert E. unfold fopen_r, bind, next_call_ok, gets.
    destruct (schedule st) as [|[] rest]; cbn; rewrite Hfile; cbn;
      intros [= <-]; exact Hbytes. }
  apply bind_inv_Some in H as ([c sz] & s2 & Ea & H).
  apply (keeps_run stream_data _ _ _ _ minipack_fread_array_keeps_data) in Ea.
  apply bind_inv_Some in H as ([] & s2' & C & H). apply check_inv in C as [_ ->].
  apply bind_inv_Some in H as (arr & s3 & Em & H).
  apply (keeps_run stream_data _ _ _ _ (malloc_keeps_stream_data _)) in Em.
  apply bind_inv_Some in H as ([] & s3' & C & H). apply check_inv in C as [_ ->].
  apply bind_inv_Some in H as (l & s4 & El & H). injection H as _ <- _.
  destruct (Z.to_nat c) as [|[|n]] eqn:En; [lia | lia |].
  pose proof (load_actions_two_fail self n [] s3) as D.
  rewrite El in D. unfold stream_data in *. rewrite Em, Ea in D.
  now discriminate D.
Qed.

(** X13: a load that returns 0 has read at most one action.  For a registry
    whose file holds bytes, whatever they are, a successful load leaves
    [action_count] at most 1: a file that announces two actions or more is
    never loaded. *)
Theorem load_success_at_most_one_action (p : ptr) (st : state)
    (t : sky_table) (dir : string) (content : list Z) :
  table (af st) = Some t -> path t = Some dir ->
  fs st !! (dir ++ "/actions")%string = Some content ->
  all_bytes content = true ->
  fst (sky_action_file_load (Some p) st) = 0 ->
  action_count (af (snd (sky_action_file_load (Some p) st))) <= 1.
Proof.
  intros Ht Hd Hfile Hbytes Hok.
  destruct (load_success_inv p st Hok)
    as (loaded & count & st1 & -> & [[-> ->]|H]); cbn; [lia|].
  cbv zeta in H.
  rewrite (sky_action_file_get_path_ok p
             (with_af (empty_action_file (table (af st))) st) t dir Ht Hd)
    in H. cbn [fst snd] in H.
  eapply (load_file_at_most_one (Some p) _ content);
    [| exact Hbytes | exact H]. exact Hfile.
Qed.

Lemma load_success_at_most_one_action_witness :
  action_count
    (af (snd (sky_action_file_load (Some 1%N)
                (sample_state (registry_of [])
                   {[ "/db/users/actions"%string
                      := [0x91; 0x01; 0xa1; 0x61] ]} [])))) <= 1.
Proof.
  apply (load_success_at_most_one_action 1%N
           (sample_state (registry_of [])
              {[ "/db/users/actions"%string := [0x91; 0x01; 0xa1; 0x61] ]}
              [])
           sample_table "/db/users"%string [0x91; 0x01; 0xa1; 0x61]);
    reflexivity.
Defined.

(** *** A file with one action *)

Lemma steps_bind {A B} (P : state -> Prop) (Q : A -> state -> Prop)
    (R : B -> state -> Prop) (m : M A) (k : A -> M B) :
  steps P m Q -> (forall a, steps (Q a) (k a) R) -> steps P (bind m k) R.
Proof.
  intros Hm Hk st HP. destruct (Hm st HP) as (a & st1 & E & HQ).
  destruct (Hk a st1 HQ) as (b & st2 & E2 & HR).
  exists b, st2. unfold bind. now rewrite E.
Qed.

Lemma steps_ret {A} (P : state -> Prop) (a : A) :
  steps P (ret a) (fun r st => r = a /\ P st).
Proof. intros st HP. now exists a, st. Qed.

Lemma steps_check (P : state -> Prop) (b : bool) :
  b = true -> steps P (check b) (fun _ st => P st).
Proof. intros -> st HP. now exists tt, st. Qed.

Lemma steps_weaken {A} (P : state -> Prop) (Q Q' : A -> state -> Prop)
    (m : M A) :
  steps P m Q -> (forall a st, Q a st -> Q' a st) -> steps P m Q'.
Proof.
  intros Hm HQ st HP. destruct (Hm st HP) as (a & st1 & E & H).
  exists a, st1. split; [exact E | now apply HQ].
Qed.

(** A reader that touches neither schedule nor registry, in a calm state. *)
Lemma reads_calm {A} (R R' : list Z) (reg : sky_action_file) (m : M A) a :
  reads R m a R' -> keeps schedule m -> keeps af m ->
  steps (calm R reg) m (fun r st => r = a /\ calm R' reg st).
Proof.
  intros Hr Ks Ka st (HR & Hs & Hreg). destruct (Hr st HR) as (st1 & E & H1).
  exists a, st1. split; [exact E|]. split; [reflexivity|].
  split; [exact H1|].
  rewrite (keeps_run schedule m st _ st1 Ks E).
  now rewrite (keeps_run af m st _ st1 Ka E).
Qed.

Lemma next_call_ok_calm (R : list Z) (reg : sky_action_file) :
  steps (calm R reg) next_call_ok (fun ok st => ok = true /\ calm R reg st).
Proof.
  intros st (HR & Hs & Hreg). exists true, st. unfold next_call_ok.
  now rewrite Hs.
Qed.

Lemma minipack_fread_raw_keeps_schedule : keeps schedule minipack_fread_raw.
Proof. frame. Qed.

Lemma minipack_fread_int_keeps_schedule : keeps schedule minipack_fread_int.
Proof. frame. Qed.

Lemma minipack_fread_array_keeps_schedule :
  keeps schedule minipack_fread_array.
Proof. frame. Qed.

(** In a calm state, a string that ends the stream is read whole. *)
Lemma fread_bstring_calm (s : list Z) (reg : sky_action_file) :
  1 <= Z.of_nat (length s) < 2 ^ 32 - 1 ->
  steps (calm (pack_raw (Z.of_nat (length s)) ++ s) reg)
        (call sky_minipack_fread_bstring)
        (fun r st => r = (0, Some s) /\ af st = reg).
Proof.
  intros Hlen st (HR & Hs & Hreg).
  destruct (minipack_fread_raw_reads (Z.of_nat (length s)) s)
    as (sz & Hsz & Hraw); [lia|].
  destruct (Hraw st HR) as (st1 & E & H1).
  pose proof (keeps_run schedule _ _ _ _ minipack_fread_raw_keeps_schedule E)
    as Hs1.
  destruct (fread_bstring_window st st1 (Z.of_nat (length s)) sz E Hsz)
    as [Hres _]; [lia | congruence | |].
  { rewrite H1. unfold sizeof_char_ptr. lia. }
  pose proof (sky_minipack_fread_bstring_keeps_af st) as Ka.
  unfold call. destruct (sky_minipack_fread_bstring st) as [r st2].
  exists r, st2. split; [reflexivity|]. cbn [fst snd] in *. subst r.
  rewrite H1, Nat2Z.id, firstn_all. split; [reflexivity | congruence].
Qed.



(** A file that starts with the header of an empty array, once opened. *)
Lemma load_empty_array (p : ptr) (st : state) (t : sky_table)
    (dir : string) (rest : list Z) :
  table (af st) = Some t -> path t = Some dir ->
  fs st !! (dir ++ "/actions")%string = Some (0x90 :: rest) ->
  hd true (schedule st) = true ->
  fst (sky_action_file_load (Some p) st) = 0
  /\ af (snd (sky_action_file_load (Some p) st))
     = empty_action_file (Some t).
Proof.
  intros Ht Hd Hfile Hs.
  set (reg := empty_action_file (table (af st))).
  set (st0 := with_af reg st).
  assert (Hload : steps (fun x => x = st0)
            (load_file (Some p) (Some (dir ++ "/actions")%string))
            (fun r x => r = ([], 0) /\ af x = reg)).
  { unfold load_file.
    eapply steps_bind with
      (Q := fun f x => f = Some tt
              /\ remaining x = pack_array 0 ++ rest /\ af x = reg).
    { intros x ->. unfold fopen_r, bind, next_call_ok, gets, modify, ret.
      change (schedule st0) with (schedule st).
      destruct (schedule st) as [|[] sched]; [| |discriminate Hs];
        cbn [fs with_schedule with_af st0 mbind option_bind];
        rewrite Hfile; do 2 eexists; (split; [reflexivity|]);
        now repeat split. }
    intros f. apply steps_bind with
      (Q := fun _ x => remaining x = pack_array 0 ++ rest /\ af x = reg).
    { intros x [-> Hc]. now exists tt, x. }
    intros _.
    destruct (minipack_fread_array_reads 0 rest) as (sz & Hsz & Harr); [lia|].
    eapply steps_bind with
      (Q := fun r x => r = (0, sz) /\ af x = reg).
    { intros x [HR Hreg]. destruct (Harr x HR) as (x' & E & _).
      exists (0, sz), x'. split; [exact E|]. split; [reflexivity|].
      now rewrite (keeps_run af _ _ _ _ minipack_fread_array_keeps_af E). }
    intros [c sz']. eapply steps_bind with
      (Q := fun _ x => c = 0 /\ af x = reg).
    { intros x [[= -> ->] Hreg]. exists tt, x. unfold check.
      destruct (sz =? 0) eqn:E; [apply Z.eqb_eq in E; lia|]. now cbn. }
    intros _. eapply steps_bind with
      (Q := fun _ x => c = 0 /\ af x = reg).
    { intros x [-> Hreg].
      destruct (malloc (8 * 0) x) as [[arr|] x'] eqn:E.
      - exists arr, x'. split; [reflexivity|]. split; [reflexivity|].
        now rewrite (keeps_run af _ _ _ _ (malloc_keeps_af _) E).
      - revert E. unfold malloc, bind, next_call_ok, gets, ret.
        destruct (schedule x) as [|[] sched]; discriminate. }
    intros arr. eapply steps_bind with
      (Q := fun _ x => c = 0 /\ af x = reg).
    { intros x [-> Hreg]. now exists tt, x. }
    intros _ x [-> Hreg]. exists ([], 0), x. now repeat split. }
  unfold sky_action_file_load, or_else, bind. rewrite load_body_unloads.
  fold reg. fold st0.
  unfold load_after_unload, bind, call.
  rewrite (sky_action_file_get_path_ok p st0 t dir Ht Hd).
  cbn [check]. cbv iota beta. unfold sky_file_exists, gets.
  change (fs st0) with (fs st). rewrite Hfile.
  rewrite bool_decide_eq_true_2 by eauto. cbv iota beta.
  destruct (Hload st0 eq_refl) as (r & x & E & -> & Hreg).
  rewrite E. cbn. split; [reflexivity|]. rewrite Hreg. cbn. now rewrite Ht.
Qed.


(** X15: a file that announces no action loads as the empty registry.  When
    the file starts with the array header for zero actions and it can be
    opened, the load returns 0 with no action and [action_count] 0, whatever
    follows the header in the file and whatever the registry held. *)
Theorem load_reads_empty_array (p : ptr) (st : state) (t : sky_table)
    (dir : string) (rest : list Z) :
  table (af st) = Some t -> path t = Some dir ->
  fs st !! (dir ++ "/actions")%string = Some (0x90 :: rest) ->
  hd true (schedule st) = true ->
  fst (sky_action_file_load (Some p) st) = 0
  /\ af (snd (sky_action_file_load (Some p) st))
     = empty_action_file (Some t).
Proof. exact (load_empty_array p st t dir rest). Qed.


Lemma load_reads_empty_array_witness :
  fst (sky_action_file_load (Some 1%N)
         (sample_state (registry_of [stored 1 [0x61]])
            {[ "/db/users/actions"%string := [0x90; 0xc1; 0xc1] ]} [])) = 0
  /\ af (snd (sky_action_file_load (Some 1%N)
               (sample_state (registry_of [stored 1 [0x61]])
                  {[ "/db/users/actions"%string := [0x90; 0xc1; 0xc1] ]} [])))
     = empty_action_file (Some sample_table).
Proof.
  apply (load_reads_empty_array 1%N
           (sample_state (registry_of [stored 1 [0x61]])
              {[ "/db/users/actions"%string := [0x90; 0xc1; 0xc1] ]} [])
           sample_table "/db/users"%string [0xc1; 0xc1]); reflexivity.
Defined.

(** ** Writing a string *)

(** What [fwrite] takes from the memory at a string of [n] bytes when it is
    asked for [n] items of [sizeof_char_ptr] bytes: the string, then seven
    further bytes for each of its bytes. *)
Lemma bdata_overrun (s : list Z) (st : state) :
  let n := sizeof_char_ptr * Z.of_nat (length s) in
  exists tail,
    length tail = (7 * length s)%nat
    /\ take (Z.to_nat n) (bdata s st n) = s ++ tail.
Proof.
  intros n. unfold bdata. rewrite take_take, Nat.min_id.
  exists (take (7 * length s) (0 :: garbage st n)).
  assert (Hn : Z.to_nat n = (length s + 7 * length s)%nat).
  { unfold n, sizeof_char_ptr. lia. }
  split.
  - rewrite length_take. cbn [length]. unfold garbage.
    rewrite length_map, length_seq. lia.
  - rewrite Hn. now rewrite take_app_add.
Qed.

Lemma fwrite_elem_keeps_noise out bytes : keeps noise (fwrite_elem out bytes).
Proof. unfold fwrite_elem. frame. Qed.

(** Every way [sky_minipack_fwrite_bstring] can end, on a file that holds
    [c]: with the header and the payload written, with the header and a part
    of the payload, or with nothing. *)
Lemma fwrite_bstring_outcomes out str st c :
  fs st !! out = Some c ->
  let n := sizeof_char_ptr * blength str in
  let payload := match str with
                 | Some s => take (Z.to_nat n) (bdata s st n)
                 | None => []
                 end in
  exists st',
    (sky_minipack_fwrite_bstring out str st = (0, st')
     /\ fs st' !! out = Some (c ++ pack_raw (blength str) ++ payload))
    \/ (sky_minipack_fwrite_bstring out str st = (-1, st')
        /\ (fs st' !! out = Some c
            \/ exists k : nat,
                 (k < Z.to_nat n)%nat
                 /\ fs st' !! out
                    = Some (c ++ pack_raw (blength str) ++ take k payload))).
Proof.
  intros H n payload.
  unfold sky_minipack_fwrite_bstring, or_else, fwrite_bstring_body,
    minipack_fwrite_raw.
  pose proof (fwrite_elem_keeps_noise out (pack_raw (blength str)) st) as N.
  destruct (fwrite_elem_writes out (pack_raw (blength str)) st c
              (pack_raw_not_empty _) H) as (st1 & [(W & F & _)|W]).
  2:{ exists st1. right. unfold bind. rewrite W. cbn. split; [reflexivity|].
      left. revert W. unfold fwrite_elem, bind, next_call_ok, modify, ret.
      destruct (schedule st) as [|[] rest]; cbv iota beta; try discriminate.
      intros [= <-]. exact H. }
  rewrite W in N. cbn [snd] in N.
  unfold bind. rewrite W. cbn [check Z.eqb]. cbv iota beta.
  destruct str as [s|].
  2:{ exists st1. left. split; [reflexivity|]. rewrite F.
      subst payload. now rewrite app_nil_r. }
  unfold gets.
  assert (B : bdata s st1 n = bdata s st n).
  { unfold bdata, garbage. now rewrite N. }
  fold n. rewrite B.
  destruct (n =? 0) eqn:Z0.
  - exists st1. left. unfold fwrite. fold n. rewrite Z0. unfold ret.
    cbn [check]. apply Z.eqb_eq in Z0. assert (L0 : blength (Some s) = 0).
    { unfold n, sizeof_char_ptr in Z0. lia. }
    rewrite L0. cbn. split; [reflexivity|]. subst payload.
    now rewrite F, L0, Z0.
  - assert (Hpos : 0 < sizeof_char_ptr * blength (Some s)).
    { apply Z.eqb_neq in Z0. unfold n, sizeof_char_ptr, blength in *. lia. }
    destruct (fwrite_outcomes out (bdata s st n) sizeof_char_ptr
                (blength (Some s)) st1 _ Hpos F)
      as (k & st2 & F2 & _ & [[-> W2]|[Hk W2]]); rewrite W2; cbn [check].
    + exists st2. left. rewrite Z.eqb_refl. split; [reflexivity|].
      rewrite F2. subst payload. now rewrite <- app_assoc.
    + pose proof (torn_items_short k sizeof_char_ptr (blength (Some s))
                    eq_refl Hk) as Hshort.
      destruct (_ =? blength (Some s)) eqn:E0;
        [apply Z.eqb_eq in E0; lia|].
      exists st2. right. split; [reflexivity|]. right. exists k.
      split; [exact Hk|]. rewrite F2. subst payload.
      rewrite take_take, Nat.min_l, <- app_assoc by (fold n in Hk; lia).
      reflexivity.
Qed.

(** X16: a string written with success takes eight bytes for each of its
    bytes.  After the header the file holds the string and then seven more
    bytes per byte of the string, read from the memory that follows it,
    because the item size handed to [fwrite] is that of a pointer. *)
Theorem fwrite_bstring_writes_past_the_string (out : string) (s : bstring)
    (st : state) (c : list Z) :
  fs st !! out = Some c ->
  fst (sky_minipack_fwrite_bstring out (Some s) st) = 0 ->
  exists tail,
    length tail = (7 * length s)%nat
    /\ fs (snd (sky_minipack_fwrite_bstring out (Some s) st)) !! out
       = Some (c ++ pack_raw (Z.of_nat (length s)) ++ s ++ tail).
Proof.
  intros H Hok.
  destruct (fwrite_bstring_outcomes out (Some s) st c H)
    as (st' & [[E F]|[E _]]); rewrite E in *; [|discriminate Hok].
  destruct (bdata_overrun s st) as (tail & Hlen & Htail).
  exists tail. split; [exact Hlen|]. cbn [snd]. rewrite F. cbn [blength].
  cbv zeta in Htail. now rewrite Htail.
Qed.

Lemma fwrite_bstring_writes_past_the_string_witness :
  exists tail,
    length tail = (7 * length [0x61; 0x62])%nat
    /\ fs (snd (sky_minipack_fwrite_bstring "/db/users/actions" (Some [0x61; 0x62])
                 (sample_state (registry_of [])
                    {[ "/db/users/actions"%string := [0x90] ]} [])))
         !! "/db/users/actions"%string
       = Some ([0x90] ++ pack_raw (Z.of_nat (length [0x61; 0x62]))
                 ++ [0x61; 0x62] ++ tail).
Proof.
  apply (fwrite_bstring_writes_past_the_string "/db/users/actions"
           [0x61; 0x62]
           (sample_state (registry_of [])
              {[ "/db/users/actions"%string := [0x90] ]} []) [0x90]);
    reflexivity.
Defined.

(** X17: a string write that fails leaves the element incomplete.  When
    [sky_minipack_fwrite_bstring] does not return 0 it returns -1, and the
    file has gained either nothing, or the header of the string followed by
    fewer bytes than a write that succeeds puts after it. *)
Theorem fwrite_bstring_failure_is_partial (out : string)
    (str : option bstring) (st : state) (c : list Z) :
  fs st !! out = Some c ->
  fst (sky_minipack_fwrite_bstring out str st) <> 0 ->
  fst (sky_minipack_fwrite_bstring out str st) = -1
  /\ (fs (snd (sky_minipack_fwrite_bstring out str st)) !! out = Some c
      \/ exists part,
           Z.of_nat (length part) < sizeof_char_ptr * blength str
           /\ fs (snd (sky_minipack_fwrite_bstring out str st)) !! out
              = Some (c ++ pack_raw (blength str) ++ part)).
Proof.
  intros H Hrc.
  destruct (fwrite_bstring_outcomes out str st c H)
    as (st' & [[E _]|[E W]]); rewrite E in *; [now contradiction Hrc|].
  split; [reflexivity|]. destruct W as [W|(k & Hk & W)]; [now left|].
  right. eexists. split; [|exact W]. rewrite length_take. lia.
Qed.

(** The write of the string stops after three of its sixteen bytes. *)
Lemma fwrite_bstring_failure_is_partial_witness :
  let st := with_torn [3%nat]
              (with_schedule [true; false]
                 (sample_state (registry_of [])
                    {[ "/db/users/actions"%string := [0x90] ]} [])) in
  let r := sky_minipack_fwrite_bstring "/db/users/actions"
             (Some [0x61; 0x62]) st in
  fst r = -1
  /\ (fs (snd r) !! "/db/users/actions"%string = Some [0x90]
      \/ exists part,
           Z.of_nat (length part)
           < sizeof_char_ptr * blength (Some [0x61; 0x62])
           /\ fs (snd r) !! "/db/users/actions"%string
              = Some ([0x90] ++ pack_raw (blength (Some [0x61; 0x62]))
                        ++ part)).
Proof.
  apply (fwrite_bstring_failure_is_partial "/db/users/actions"
           (Some [0x61; 0x62])
           (with_torn [3%nat]
              (with_schedule [true; false]
                 (sample_state (registry_of [])
                    {[ "/db/users/actions"%string := [0x90] ]} [])))
           [0x90]); [reflexivity | discriminate].
Defined.

(** X18: a null string and an empty string are written alike: the header
    for length 0 and nothing else, with the same result and the same state,
    so that the file does not tell which of the two was saved. *)
Theorem fwrite_bstring_null_as_empty (out : string) (st : state) :
  sky_minipack_fwrite_bstring out (Some []) st
  = sky_minipack_fwrite_bstring out None st.
Proof.
  unfold sky_minipack_fwrite_bstring, or_else, fwrite_bstring_body,
    minipack_fwrite_raw, fwrite_elem, fwrite, bind, next_call_ok, modify, ret.
  cbn [blength length Z.of_nat Z.mul Z.eqb].
  destruct (schedule st) as [|[] rest]; reflexivity.
Qed.

(** ** Saving, continued *)

(** *** The other files *)

Lemma next_call_ok_keeps_file_at q : keeps (file_at q) next_call_ok.
Proof. intros st. unfold next_call_ok. now destruct (schedule st). Qed.

Lemma next_torn_keeps_file_at q n : keeps (file_at q) (next_torn n).
Proof. intros st. unfold next_torn. now destruct (torn st). Qed.

Lemma put_keeps_file_at {A} out q more (a : A) :
  q <> out -> keeps (file_at q) (modify (put out more) ;;; ret a).
Proof.
  intros Hq. apply keeps_bind; [|intros; apply keeps_ret].
  apply keeps_modify. intros st. unfold file_at, put. cbn [fs with_fs].
  apply lookup_insert_ne. congruence.
Qed.

Lemma fwrite_keeps_file_at out q src size nmemb :
  q <> out -> keeps (file_at q) (fwrite out src size nmemb).
Proof.
  intros Hq. unfold fwrite. destruct (size * nmemb =? 0); [apply keeps_ret|].
  apply keeps_bind; [apply next_call_ok_keeps_file_at|].
  intros [|]; [now apply put_keeps_file_at|].
  apply keeps_bind; [apply next_torn_keeps_file_at|].
  intros k. now apply put_keeps_file_at.
Qed.

Lemma fwrite_elem_keeps_file_at out q bytes :
  q <> out -> keeps (file_at q) (fwrite_elem out bytes).
Proof.
  intros Hq. unfold fwrite_elem.
  apply keeps_bind; [apply next_call_ok_keeps_file_at|].
  intros [|]; [now apply put_keeps_file_at | apply keeps_ret].
Qed.

Lemma sky_minipack_fwrite_bstring_keeps_file_at out q str st :
  q <> out ->
  file_at q (snd (sky_minipack_fwrite_bstring out str st)) = file_at q st.
Proof.
  intros Hq. unfold sky_minipack_fwrite_bstring.
  apply or_else_keeps; [|reflexivity].
  unfold fwrite_bstring_body, minipack_fwrite_raw.
  apply keeps_bind; [|intros; apply keeps_ret].
  apply keeps_bind; [now apply fwrite_elem_keeps_file_at|]. intros [rc sz].
  apply keeps_bind; [apply keeps_check|]. intros _.
  destruct str as [s|]; [|apply keeps_ret].
  apply keeps_bind; [apply keeps_gets|]. intros st0.
  apply keeps_bind; [now apply fwrite_keeps_file_at | intros; apply keeps_check].
Qed.

Lemma save_actions_keeps_file_at out q l :
  q <> out -> keeps (file_at q) (save_actions out l).
Proof.
  intros Hq. induction l as [|a l IH]; cbn [save_actions]; [apply keeps_ret|].
  unfold minipack_fwrite_int.
  apply keeps_bind; [now apply fwrite_elem_keeps_file_at|]. intros [rc sz].
  apply keeps_bind; [apply keeps_check|]. intros _.
  apply keeps_bind.
  { apply keeps_call. intros st.
    now apply sky_minipack_fwrite_bstring_keeps_file_at. }
  intros rc'. apply keeps_bind; [apply keeps_check|]. intros _. exact IH.
Qed.

Lemma save_file_keeps_file_at (p q : string) :
  q <> p -> keeps (file_at q) (save_file (Some p)).
Proof.
  intros Hq st. unfold save_file, fopen_w.
  unfold bind at 1 2. unfold next_call_ok.
  assert (K : forall x, file_at q x = file_at q st ->
            file_at q
              (snd ((count <- gets (fun st => action_count (af st)) ;;
                     '(rc, _) <- minipack_fwrite_array p (uint32 count) ;;
                     check (rc =? 0) ;;;
                     l <- gets (fun st =>
                            take (Z.to_nat count) (actions (af st))) ;;
                     save_actions p l) x))
            = file_at q st).
  { intros x <-. revert x. fold (keeps (file_at q)
      (count <- gets (fun st => action_count (af st)) ;;
       '(rc, _) <- minipack_fwrite_array p (uint32 count) ;;
       check (rc =? 0) ;;;
       l <- gets (fun st => take (Z.to_nat count) (actions (af st))) ;;
       save_actions p l)).
    apply keeps_bind; [apply keeps_gets|]. intros count.
    apply keeps_bind;
      [now apply fwrite_elem_keeps_file_at|]. intros [rc sz].
    apply keeps_bind; [apply keeps_check|]. intros _.
    apply keeps_bind; [apply keeps_gets|]. intros l.
    now apply save_actions_keeps_file_at. }
  destruct (schedule st) as [|[] rest]; unfold bind at 1, modify, ret;
    cbv iota beta; unfold bind at 1, check_mem.
  - apply K. unfold file_at. cbn [fs with_fs]. apply lookup_insert_ne.
    congruence.
  - apply K. unfold file_at. cbn [fs with_fs with_schedule].
    apply lookup_insert_ne. congruence.
  - reflexivity.
Qed.

(** The file a save writes to is the one [sky_action_file_get_path] names,
    and it was there before. *)
Lemma save_file_at (self : option ptr) (st : state) (q : string) :
  file_at q (snd (sky_action_file_save self st)) = file_at q st
  \/ (snd (fst (sky_action_file_get_path self st)) = Some q
      /\ is_Some (fs st !! q)).
Proof.
  unfold sky_action_file_save, or_else, save_body.
  destruct self as [p|]; [|now left].
  unfold bind at 1 2. cbn [check nonnull]. cbv iota beta.
  unfold bind at 1, call.
  pose proof (sky_action_file_get_path_keeps (Some p) st) as K.
  destruct (sky_action_file_get_path (Some p) st) as [[rc pth] s].
  cbn [fst snd] in *. subst s.
  unfold bind at 1. destruct (rc =? 0); cbn [check]; [|now left].
  unfold bind at 1, sky_file_exists, gets.
  destruct pth as [pth|]; [|now left].
  destruct (bool_decide (is_Some (fs st !! pth))) eqn:Ex; [|now left].
  apply bool_decide_eq_true_1 in Ex.
  destruct (decide (q = pth)) as [->|Hne]; [now right|]. left.
  pose proof (save_file_keeps_file_at pth q Hne st) as S.
  destruct (save_file (Some pth) st) as [[[]|] s]; exact S.
Qed.

(** X19: a save writes to one file only, the registry's own, and only when
    that file was already there.  Every other path holds after
    [sky_action_file_save] what it held before, whatever the outcome. *)
Theorem save_touches_only_its_file (self : option ptr) (st : state)
    (q : string) :
  fs (snd (sky_action_file_save self st)) !! q = fs st !! q
  \/ (snd (fst (sky_action_file_get_path self st)) = Some q
      /\ is_Some (fs st !! q)).
Proof. exact (save_file_at self st q). Qed.

(** *** No file appears or disappears *)

Lemma never_removes_keeps {A} (m : M A) : keeps fs m -> never_removes m.
Proof. intros K st q H. now rewrite K. Qed.

Lemma never_removes_bind {A B} (m : M A) (k : A -> M B) :
  never_removes m -> (forall a, never_removes (k a)) ->
  never_removes (bind m k).
Proof.
  intros Hm Hk st q H. unfold bind. specialize (Hm st q H).
  destruct (m st) as [[a|] st1]; cbn [snd] in *; [|exact Hm].
  now apply Hk.
Qed.

Lemma never_removes_insert (p : string) (g : state -> list Z) :
  never_removes (modify (fun st => with_fs (<[p := g st]> (fs st)) st)).
Proof.
  intros st q H. unfold modify. cbn [snd fs with_fs].
  destruct (decide (p = q)) as [->|Hne].
  - rewrite lookup_insert_eq. eauto.
  - now rewrite lookup_insert_ne.
Qed.

Lemma put_never_removes {A} out more (a : A) :
  never_removes (modify (put out more) ;;; ret a).
Proof.
  apply never_removes_bind;
    [|intros; apply never_removes_keeps, keeps_ret].
  apply (never_removes_insert out
           (fun st => default [] (fs st !! out) ++ more)).
Qed.

Lemma fwrite_never_removes out src size nmemb :
  never_removes (fwrite out src size nmemb).
Proof.
  unfold fwrite. destruct (size * nmemb =? 0);
    [apply never_removes_keeps, keeps_ret|].
  apply never_removes_bind;
    [apply never_removes_keeps, next_call_ok_keeps_fs|].
  intros [|]; [apply put_never_removes|].
  apply never_removes_bind;
    [apply never_removes_keeps, next_torn_keeps_fs|].
  intros k. apply put_never_removes.
Qed.

Lemma fwrite_elem_never_removes out bytes :
  never_removes (fwrite_elem out bytes).
Proof.
  unfold fwrite_elem. apply never_removes_bind;
    [apply never_removes_keeps, next_call_ok_keeps_fs|].
  intros [|]; [apply put_never_removes|].
  apply never_removes_keeps, keeps_ret.
Qed.

Lemma or_else_never_removes {A} (body : M A) (r : A) :
  never_removes body ->
  never_removes (call (or_else body (fun st => (r, st)))).
Proof.
  intros Hb st q H. specialize (Hb st q H). unfold call, or_else.
  destruct (body st) as [[a|] st1]; exact Hb.
Qed.

Lemma sky_minipack_fwrite_bstring_never_removes out str :
  never_removes (call (sky_minipack_fwrite_bstring out str)).
Proof.
  unfold sky_minipack_fwrite_bstring. apply or_else_never_removes.
  apply never_removes_bind; [|intros; apply never_removes_keeps, keeps_ret].
  unfold fwrite_bstring_body, minipack_fwrite_raw.
  apply never_removes_bind; [apply fwrite_elem_never_removes|]. intros [rc sz].
  apply never_removes_bind; [apply never_removes_keeps, keeps_check|].
  intros _. destruct str as [s|]; [|apply never_removes_keeps, keeps_ret].
  apply never_removes_bind; [apply never_removes_keeps, keeps_gets|].
  intros st0. apply never_removes_bind; [apply fwrite_never_removes|].
  intros sz'. apply never_removes_keeps, keeps_check.
Qed.

Lemma save_actions_never_removes out l : never_removes (save_actions out l).
Proof.
  induction l as [|a l IH]; cbn [save_actions];
    [apply never_removes_keeps, keeps_ret|].
  unfold minipack_fwrite_int.
  apply never_removes_bind; [apply fwrite_elem_never_removes|]. intros [rc sz].
  apply never_removes_bind; [apply never_removes_keeps, keeps_check|].
  intros _.
  apply never_removes_bind;
    [apply sky_minipack_fwrite_bstring_never_removes|]. intros rc'.
  apply never_removes_bind; [apply never_removes_keeps, keeps_check|].
  intros _. exact IH.
Qed.

Lemma fopen_w_never_removes p : never_removes (fopen_w p).
Proof.
  unfold fopen_w.
  apply never_removes_bind;
    [apply never_removes_keeps, next_call_ok_keeps_fs|].
  intros ok. destruct p as [p|]; [|apply never_removes_keeps, keeps_ret].
  destruct ok; [|apply never_removes_keeps, keeps_ret].
  apply never_removes_bind;
    [|intros; apply never_removes_keeps, keeps_ret].
  apply (never_removes_insert p (fun _ => [])).
Qed.

Lemma save_file_never_removes p : never_removes (save_file p).
Proof.
  unfold save_file, minipack_fwrite_array.
  apply never_removes_bind; [apply fopen_w_never_removes|]. intros f.
  apply never_removes_bind; [apply never_removes_keeps, keeps_check_mem|].
  intros out.
  apply never_removes_bind; [apply never_removes_keeps, keeps_gets|].
  intros count.
  apply never_removes_bind; [apply fwrite_elem_never_removes|]. intros [rc sz].
  apply never_removes_bind; [apply never_removes_keeps, keeps_check|].
  intros _.
  apply never_removes_bind; [apply never_removes_keeps, keeps_gets|].
  intros l. apply save_actions_never_removes.
Qed.

Lemma sky_action_file_save_never_removes self :
  never_removes (call (sky_action_file_save self)).
Proof.
  unfold sky_action_file_save. apply or_else_never_removes.
  apply never_removes_bind; [|intros; apply never_removes_keeps, keeps_ret].
  unfold save_body.
  apply never_removes_bind; [apply never_removes_keeps, keeps_check|].
  intros _. apply never_removes_bind.
  { apply never_removes_keeps, keeps_call. intros st.
    now rewrite sky_action_file_get_path_keeps. }
  intros [rc pth].
  apply never_removes_bind; [apply never_removes_keeps, keeps_check|].
  intros _. apply never_removes_bind.
  { apply never_removes_keeps. unfold sky_file_exists. apply keeps_gets. }
  intros [|]; [apply save_file_never_removes|].
  apply never_removes_keeps, keeps_ret.
Qed.

(** X20: a save neither creates nor removes a file.  The paths that name a
    file after [sky_action_file_save] are the paths that named one before,
    whatever the outcome. *)
Theorem save_keeps_the_set_of_files (self : option ptr) (st : state)
    (q : string) :
  is_Some (fs (snd (sky_action_file_save self st)) !! q)
  <-> is_Some (fs st !! q).
Proof.
  split.
  - intros H. destruct (save_file_at self st q) as [E|[_ E]]; [|exact E].
    unfold file_at in E. now rewrite <- E.
  - intros H.
    pose proof (sky_action_file_save_never_removes self st q H) as R.
    unfold call in R.
    now destruct (sky_action_file_save self st) as [rc st'].
Qed.

(** *** When a write fails *)

(** X21: a save that cannot open its file leaves the disk as it was.  When
    the file exists and the [fopen] for writing fails, the save returns -1
    and every file, the registry's own included, holds what it held. *)
Theorem save_open_failure_keeps_disk (p : ptr) (st : state) (t : sky_table)
    (dir : string) (c : list Z) (rest : list bool) :
  table (af st) = Some t -> path t = Some dir ->
  fs st !! (dir ++ "/actions")%string = Some c ->
  schedule st = false :: rest ->
  fst (sky_action_file_save (Some p) st) = -1
  /\ fs (snd (sky_action_file_save (Some p) st)) = fs st.
Proof.
  intros Ht Hd Hfile Hs.
  unfold sky_action_file_save, or_else, bind.
  rewrite (save_body_existing p st t dir Ht Hd) by eauto.
  unfold save_file, fopen_w, bind, next_call_ok. rewrite Hs.
  now cbn.
Qed.

Lemma save_open_failure_keeps_disk_witness :
  let st := with_schedule [false]
              (sample_state (registry_of [stored 1 [0x61]])
                 {[ "/db/users/actions"%string := [0x90] ]} []) in
  fst (sky_action_file_save (Some 1%N) st) = -1
  /\ fs (snd (sky_action_file_save (Some 1%N) st)) = fs st.
Proof.
  apply (save_open_failure_keeps_disk 1%N
           (with_schedule [false]
              (sample_state (registry_of [stored 1 [0x61]])
                 {[ "/db/users/actions"%string := [0x90] ]} []))
           sample_table "/db/users"%string [0x90] []); reflexivity.
Defined.

(** X22: a save whose first write fails has emptied the file.  The file is
    truncated when it is opened, so when the write of the action count then
    fails the save returns -1 and the file is left with no content: what it
    held before is lost, and nothing else on the disk has changed. *)
Theorem save_header_failure_empties_file (p : ptr) (st : state)
    (t : sky_table) (dir : string) (c : list Z) (rest : list bool) :
  table (af st) = Some t -> path t = Some dir ->
  fs st !! (dir ++ "/actions")%string = Some c ->
  schedule st = true :: false :: rest ->
  fst (sky_action_file_save (Some p) st) = -1
  /\ fs (snd (sky_action_file_save (Some p) st))
     = <[(dir ++ "/actions")%string := []]> (fs st).
Proof.
  intros Ht Hd Hfile Hs.
  unfold sky_action_file_save, or_else, bind.
  rewrite (save_body_existing p st t dir Ht Hd) by eauto.
  unfold save_file, fopen_w, minipack_fwrite_array, fwrite_elem,
    bind, next_call_ok, modify, ret, gets, check_mem.
  rewrite Hs. cbv iota beta.
  now cbn.
Qed.

Lemma save_header_failure_empties_file_witness :
  let st := with_schedule [true; false]
              (sample_state (registry_of [stored 1 [0x61]])
                 {[ "/db/users/actions"%string := [0x90] ]} []) in
  fst (sky_action_file_save (Some 1%N) st) = -1
  /\ fs (snd (sky_action_file_save (Some 1%N) st))
     = <[ "/db/users/actions"%string := [] ]> (fs st).
Proof.
  apply (save_header_failure_empties_file 1%N
           (with_schedule [true; false]
              (sample_state (registry_of [stored 1 [0x61]])
                 {[ "/db/users/actions"%string := [0x90] ]} []))
           sample_table "/db/users"%string [0x90] []); reflexivity.
Defined.

(** *** The round trip of the empty registry *)

(** X23: a registry that counts no action survives the round trip.  When
    the file exists and every call to the system succeeds, the save
    replaces the content of the file by the one-byte header of an empty
    array, and the load that follows returns 0 and leaves the registry
    empty, with its table. *)
Theorem save_then_load_empty_registry (p : ptr) (st : state) (t : sky_table)
    (dir : string) (c : list Z) :
  table (af st) = Some t -> path t = Some dir ->
  fs st !! (dir ++ "/actions")%string = Some c ->
  action_count (af st) = 0 ->
  schedule st = [] ->
  fst (sky_action_file_save (Some p) st) = 0
  /\ fs (snd (sky_action_file_save (Some p) st)) !! (dir ++ "/actions")%string
     = Some [0x90]
  /\ fst (sky_action_file_load (Some p)
            (snd (sky_action_file_save (Some p) st))) = 0
  /\ af (snd (sky_action_file_load (Some p)
                (snd (sky_action_file_save (Some p) st))))
     = empty_action_file (Some t).
Proof.
  intros Ht Hd Hfile Hcount Hs.
  set (q := (dir ++ "/actions")%string) in *.
  assert (S : sky_action_file_save (Some p) st
              = (0, with_fs (<[q := [0x90]]> (fs st)) st)).
  { unfold sky_action_file_save, or_else, bind.
    rewrite (save_body_existing p st t dir Ht Hd) by eauto. fold q.
    unfold save_file, fopen_w, minipack_fwrite_array, fwrite_elem,
      bind, next_call_ok, modify, ret, gets, check_mem.
    rewrite Hs. cbv iota beta. cbn [af with_fs schedule fs].
    rewrite ?Hcount. change (pack_array (uint32 0)) with [0x90].
    cbv iota beta. cbn [schedule with_fs]. rewrite Hs.
    cbv iota beta. unfold put. cbn [fs with_fs]. rewrite lookup_insert_eq.
    cbn [default from_option take app check Z.eqb Z.to_nat save_actions ret
         length Z.of_nat af with_fs action_count].
    unfold Datatypes.id, ret. cbv iota beta.
    now rewrite insert_insert_eq. }
  rewrite S. cbn [fst snd fs with_fs].
  split; [reflexivity|]. split; [apply lookup_insert_eq|].
  apply (load_empty_array p _ t dir []).
  - exact Ht.
  - exact Hd.
  - cbn [fs with_fs]. fold q. apply lookup_insert_eq.
  - cbn [schedule with_fs]. now rewrite Hs.
Qed.

Lemma save_then_load_empty_registry_witness :
  let st := sample_state (registry_of [])
              {[ "/db/users/actions"%string := [0xc1; 0xc1] ]} [] in
  fst (sky_action_file_save (Some 1%N) st) = 0
  /\ fs (snd (sky_action_file_save (Some 1%N) st))
       !! ("/db/users" ++ "/actions")%string
     = Some [0x90]
  /\ fst (sky_action_file_load (Some 1%N)
            (snd (sky_action_file_save (Some 1%N) st))) = 0
  /\ af (snd (sky_action_file_load (Some 1%N)
                (snd (sky_action_file_save (Some 1%N) st))))
     = empty_action_file (Some sample_table).
Proof.
  apply (save_then_load_empty_registry 1%N
           (sample_state (registry_of [])
              {[ "/db/users/actions"%string := [0xc1; 0xc1] ]} [])
           sample_table "/db/users"%string [0xc1; 0xc1]); reflexivity.
Defined.

(** ** Loading over a registry that holds actions *)

(** X24: a load starts from scratch.  What [sky_action_file_load] returns
    and the state it leaves do not depend on the actions and the count the
    registry held when it was called: only its table is used. *)
Theorem load_ignores_stored_actions (p : ptr) (st : state)
    (l : list sky_action) (n : Z) :
  sky_action_file_load (Some p)
    (with_af {| table := table (af st); actions := l; action_count := n |} st)
  = sky_action_file_load (Some p) st.
Proof.
  unfold sky_action_file_load, or_else, bind.
  now rewrite !load_body_unloads.
Qed.
